(** * Frame sampling and analysis aggregation: a shallow embedding

    This development embeds the algorithmic core of the urban-warfare
    analyst pipeline,

    - [frame_extractor.py]: [FrameExtractor.extract_key_frames],
      [FrameExtractor._resize_image] and [FrameExtractor.validate_video];
    - [performance_summarizer.py]: [PerformanceSummarizer.aggregate_analysis],
      [_get_performance_rating] and [_generate_recommendations];
    - [config.py]: the frame-extraction settings and the limits of
      [Config], and [Config.validate];
    - [run_stage3_infographic.py]: the script up to its call of
      [aggregate_analysis],

    and proves the properties the specification states about them,
    followed by further properties of the same code.

    Python values are modelled as follows.  An [int] is a [Z].  A [float]
    is an IEEE-754 binary64 number, [spec_float] with [prec = 53] and
    [emax = 1024]; the arithmetic is the correctly rounded one of
    [SpecFloat].  A [str] is a [string] of ASCII characters.  A [dict] is a
    [gmap] with string keys, a field that may be missing from a JSON record
    is an [option].  An exception is a value of [exn], and a function that
    may raise returns a [result]. *)

From Stdlib Require Import ZArith List String Ascii Bool Lia.
From Stdlib Require Import Reals Lra.
From Stdlib Require Import SpecFloat.
From stdpp Require Import gmap strings list pretty.

Local Open Scope string_scope.
Local Open Scope list_scope.
Local Open Scope Z_scope.

(** ** Exceptions and the error monad *)

Inductive exn : Type :=
| ValueError (msg : string)
| KeyError (key : string)
| ZeroDivisionError
| OverflowError
| FileNotFoundError.

Definition result (A : Type) : Type := exn + A.

Definition ret {A : Type} (a : A) : result A := inr a.
Definition raise {A : Type} (e : exn) : result A := inl e.

Definition bind {A B : Type} (k : A -> result B) (c : result A) : result B :=
  match c with
  | inl e => inl e
  | inr a => k a
  end.

(** The monad notation [x ← c; k] is the one of stdpp. *)
#[global] Instance result_ret : MRet result := @ret.
#[global] Instance result_bind : MBind result := @bind.

(** [r[key]] on a dict built from JSON: a missing key raises [KeyError]. *)
Definition getitem {A : Type} (key : string) (field : option A) : result A :=
  match field with
  | Some a => ret a
  | None => raise (KeyError key)
  end.

(** ** Python floats *)

Module PyFloat.

Definition prec : Z := 53.
Definition emax : Z := 1024.

Definition float : Type := spec_float.

Definition fmul : float -> float -> float := SFmul prec emax.
Definition fdiv : float -> float -> float := SFdiv prec emax.

(** An integer as an unrounded pair (mantissa, exponent 0). *)
Definition raw (n : Z) : float :=
  match n with
  | Z0 => S754_zero false
  | Zpos p => S754_finite false p 0
  | Zneg p => S754_finite true p 0
  end.

(** [float(n)]: the nearest double; too large an integer raises
    [OverflowError]. *)
Definition float_of_int (n : Z) : result float :=
  match binary_normalize prec emax n 0 false with
  | S754_infinity _ => raise OverflowError
  | f => ret f
  end.

Definition is_zero (x : float) : bool :=
  match x with S754_zero _ => true | _ => false end.

(** [a / b] on two ints: the correctly rounded quotient of the exact
    integers; [ZeroDivisionError] when [b] is zero, [OverflowError] when
    the quotient is too large for a double. *)
Definition int_truediv (a b : Z) : result float :=
  if b =? 0 then raise ZeroDivisionError
  else match a with
       | Z0 => ret (S754_zero (b <? 0))
       | _ => match fdiv (raw a) (raw b) with
              | S754_infinity _ => raise OverflowError
              | q => ret q
              end
       end.

(** [n * x] with [n] an int and [x] a float: [n] is converted first. *)
Definition int_mul_float (n : Z) (x : float) : result float :=
  f ← float_of_int n ; ret (fmul f x).

(** [n / x] with [n] an int and [x] a float. *)
Definition int_div_float (n : Z) (x : float) : result float :=
  f ← float_of_int n ;
  if is_zero x then raise ZeroDivisionError else ret (fdiv f x).

(** [int(x)]: truncation toward zero. *)
Definition int_of_float (x : float) : result Z :=
  match x with
  | S754_zero _ => ret 0
  | S754_nan => raise (ValueError "cannot convert float NaN to integer")
  | S754_infinity _ => raise OverflowError
  | S754_finite s m e =>
      let a := match e with
               | Z0 => Zpos m
               | Zpos k => Zpos m * 2 ^ Zpos k
               | Zneg k => Zpos m / 2 ^ Zpos k
               end in
      ret (if s then - a else a)
  end.

(** Comparisons of a float with an int constant that a double holds
    exactly.  Every comparison with NaN is false. *)
Definition const (n : Z) : float := binary_normalize prec emax n 0 false.

Definition ge_int (x : float) (n : Z) : bool := SFleb (const n) x.
Definition lt_int (x : float) (n : Z) : bool := SFltb x (const n).

(** The double nearest to the decimal literal [a / 10 ^ d]. *)
Definition literal (a : Z) (d : Z) : float :=
  match a with
  | Z0 => S754_zero false
  | _ => fdiv (raw a) (raw (10 ^ d))
  end.

(** [round(x, 1)]: the exact value of [x] is rounded half-to-even to one
    decimal, and the double nearest to that decimal is returned. *)
Definition round_half_even (a b : Z) : Z :=
  let q := a / b in
  let r := a mod b in
  match 2 * r ?= b with
  | Lt => q
  | Gt => q + 1
  | Eq => if Z.even q then q else q + 1
  end.

Definition round1 (x : float) : float :=
  match x with
  | S754_finite s m e =>
      let k := match e with
               | Z0 => Zpos m * 10
               | Zpos j => Zpos m * 10 * 2 ^ Zpos j
               | Zneg j => round_half_even (Zpos m * 10) (2 ^ Zpos j)
               end in
      match k with
      | Z0 => S754_zero s
      | _ => fdiv (raw (if s then - k else k)) (raw 10)
      end
  | _ => x
  end.

End PyFloat.

Import PyFloat.

(** ** Python built-ins on lists, strings and dicts *)

(** [d.get(key, 0)] on a dict of counters. *)
Definition get0 (d : gmap string Z) (key : string) : Z := default 0 (d !! key).

(** [sum(l)] on ints. *)
Definition py_sum (l : list Z) : Z := foldl Z.add 0 l.

(** [min(l)] and [max(l)]: the empty sequence raises [ValueError]. *)
Definition py_min (l : list Z) : result Z :=
  match l with
  | [] => raise (ValueError "min() arg is an empty sequence")
  | x :: l' => ret (foldl Z.min x l')
  end.

Definition py_max (l : list Z) : result Z :=
  match l with
  | [] => raise (ValueError "max() arg is an empty sequence")
  | x :: l' => ret (foldl Z.max x l')
  end.

(** [l[:n]]: a negative [n] counts from the end. *)
Definition slice_to {A : Type} (l : list A) (n : Z) : list A :=
  if n <? 0 then firstn (Z.to_nat (Z.of_nat (length l) + n)) l
  else firstn (Z.to_nat n) l.

(** [s.lower()] on ASCII text. *)
Definition lower_ascii (c : ascii) : ascii :=
  let n := nat_of_ascii c in
  if (65 <=? n)%nat && (n <=? 90)%nat then ascii_of_nat (n + 32) else c.

Fixpoint lower (s : string) : string :=
  match s with
  | EmptyString => EmptyString
  | String c s' => String (lower_ascii c) (lower s')
  end.

(** [needle in hay]: the substring test. *)
Fixpoint contains (needle hay : string) : bool :=
  String.prefix needle hay ||
  match hay with
  | EmptyString => false
  | String _ hay' => contains needle hay'
  end.

(** ** performance_summarizer.py *)

(** The per-frame analysis returned by the vision model, as parsed from
    JSON.  Every field is read with [dict.get], so each may be missing. *)
Module Analysis.
Record t : Type := mk {
  score : option Z;
  soldier_count : option Z;
  cover_summary : option (gmap string Z);
  movement_analysis : option (gmap string string);
  tactical_errors : option (list string);
  tactical_strengths : option (list string)
}.
End Analysis.

(** One element of [analysis_results]: a dict read with [r['analysis']],
    [r['index']] and [r['timestamp']]. *)
Module FrameResult.
Record t : Type := mk {
  analysis : option Analysis.t;
  index : option Z;
  timestamp : option float
}.
End FrameResult.

(** [video_metadata], read with [dict.get]. *)
Module VideoMetadata.
Record t : Type := mk {
  filename : option string;
  duration : option float;
  resolution : option (Z * Z)
}.
End VideoMetadata.

(** The summary dict that [aggregate_analysis] returns. *)
Module Summary.
Record frame : Type := mk_frame {
  index : Z;
  timestamp : float;
  score : Z;
  formation : string;
  soldier_count : Z;
  cover_summary : gmap string Z
}.

Record performance : Type := mk_performance {
  average_score : float;
  min_score : Z;
  max_score : Z;
  score_range : Z;
  rating : string
}.

Record tactical : Type := mk_tactical {
  total : Z;
  by_category : gmap string Z;
  examples : list string
}.

Record t : Type := mk {
  video_name : string;
  duration : float;
  resolution : Z * Z;
  frame_count : Z;
  frames_analyzed : list frame;
  overall_performance : performance;
  cover_statistics : gmap string Z;
  total_soldiers : Z;
  formations_used : gset string;
  tactical_errors : tactical;
  tactical_strengths : tactical;
  recommendations : list string
}.
End Summary.

Definition _get_performance_rating (score : float) : string :=
  if ge_int score 90 then "Excellent"
  else if ge_int score 75 then "Good"
  else if ge_int score 60 then "Satisfactory"
  else if ge_int score 50 then "Needs Improvement"
  else "Requires Remedial Training".

Definition rec_fundamentals : string :=
  "Schedule additional training sessions focusing on fundamentals".
Definition rec_spacing : string :=
  "Practice spacing drills - maintain 3-5 meter intervals during movement".
Definition rec_cover : string :=
  "Emphasize cover utilization - always move from cover to cover".
Definition rec_formation : string :=
  "Review and practice standard formations (wedge, line, column)".
Definition rec_weapon : string :=
  "Continue excellent weapon handling - maintain this standard".
Definition rec_entry : string :=
  "Formation discipline is strong - focus on refining entry techniques".
Definition rec_continue : string :=
  "Continue current training regimen".
Definition rec_consistency : string :=
  "Focus on maintaining consistent performance across all scenarios".

(** [recommendations.append(r)] when [cond] holds. *)
Definition append_if (cond : bool) (r : string) (recommendations : list string)
  : list string :=
  if cond then recommendations ++ [r] else recommendations.

Definition _generate_recommendations
    (avg_score : float) (errors strengths : gmap string Z) : list string :=
  let recommendations := [] in
  let recommendations :=
    append_if (lt_int avg_score 70) rec_fundamentals recommendations in
  let recommendations :=
    append_if (2 <=? get0 errors "spacing_issues") rec_spacing recommendations in
  let recommendations :=
    append_if (2 <=? get0 errors "cover_issues") rec_cover recommendations in
  let recommendations :=
    append_if (2 <=? get0 errors "formation_issues") rec_formation recommendations in
  let recommendations :=
    append_if (2 <=? get0 strengths "weapon_discipline") rec_weapon recommendations in
  let recommendations :=
    append_if (2 <=? get0 strengths "formation_discipline") rec_entry recommendations in
  let recommendations :=
    match recommendations with
    | [] => (recommendations ++ [rec_continue]) ++ [rec_consistency]
    | _ => recommendations
    end in
  slice_to recommendations 5.

(** [freq[key] = freq.get(key, 0) + 1] when [cond] holds. *)
Definition count_if (cond : bool) (key : string) (freq : gmap string Z)
  : gmap string Z :=
  if cond then <[key := get0 freq key + 1]> freq else freq.

(** The body of the loop over [all_errors]. *)
Definition categorize_error (error_frequency : gmap string Z) (error : string)
  : gmap string Z :=
  let error_frequency :=
    count_if (contains "spacing" (lower error) || contains "tight" (lower error))
             "spacing_issues" error_frequency in
  let error_frequency :=
    count_if (contains "cover" (lower error) || contains "exposed" (lower error))
             "cover_issues" error_frequency in
  count_if (contains "formation" (lower error))
           "formation_issues" error_frequency.

(** The body of the loop over [all_strengths]. *)
Definition categorize_strength (strength_frequency : gmap string Z)
    (strength : string) : gmap string Z :=
  let strength_frequency :=
    count_if (contains "cover" (lower strength))
             "cover_utilization" strength_frequency in
  let strength_frequency :=
    count_if (contains "formation" (lower strength)
              || contains "stack" (lower strength))
             "formation_discipline" strength_frequency in
  count_if (contains "weapon" (lower strength)
            || contains "muzzle" (lower strength))
           "weapon_discipline" strength_frequency.

Definition cover_keys : list string :=
  ["full_cover"; "partial_cover"; "no_cover"; "exposed"].

(** The inner loop [for key in cover_stats: cover_stats[key] += ...]. *)
Definition add_cover (cover_stats cover_summary : gmap string Z)
  : gmap string Z :=
  foldl (fun stats key => <[key := get0 stats key + get0 cover_summary key]> stats)
        cover_stats cover_keys.

Definition get_score (a : Analysis.t) : Z := default 0 (Analysis.score a).
Definition get_soldier_count (a : Analysis.t) : Z :=
  default 0 (Analysis.soldier_count a).
Definition get_cover_summary (a : Analysis.t) : gmap string Z :=
  default ∅ (Analysis.cover_summary a).
Definition get_formation (a : Analysis.t) : string :=
  default "unknown" (default ∅ (Analysis.movement_analysis a) !! "formation").
Definition get_errors (a : Analysis.t) : list string :=
  default [] (Analysis.tactical_errors a).
Definition get_strengths (a : Analysis.t) : list string :=
  default [] (Analysis.tactical_strengths a).

(** One element of ['frames_analyzed']. *)
Definition frame_entry (r : FrameResult.t) : result Summary.frame :=
  i ← getitem "index" (FrameResult.index r);
  t ← getitem "timestamp" (FrameResult.timestamp r);
  a ← getitem "analysis" (FrameResult.analysis r);
  ret (Summary.mk_frame i t (get_score a) (get_formation a)
         (get_soldier_count a) (get_cover_summary a)).

Definition aggregate_analysis
    (analysis_results : list FrameResult.t) (video_metadata : VideoMetadata.t)
  : result Summary.t :=
  match analysis_results with
  | [] => raise (ValueError "No analysis results to aggregate")
  | _ =>
      let total_frames := Z.of_nat (length analysis_results) in
      analyses ← mapM (fun r => getitem "analysis" (FrameResult.analysis r))
                      analysis_results;
      let scores := map get_score analyses in
      avg_score ← (if 0 <? total_frames
                   then int_truediv (py_sum scores) total_frames
                   else ret (S754_zero false));
      let all_errors := concat (map get_errors analyses) in
      let all_strengths := concat (map get_strengths analyses) in
      let total_soldier_count := py_sum (map get_soldier_count analyses) in
      let cover_stats :=
        foldl (fun stats a => add_cover stats (get_cover_summary a))
              (list_to_map (map (fun key => (key, 0)) cover_keys)) analyses in
      let formations := map get_formation analyses in
      let error_frequency := foldl categorize_error ∅ all_errors in
      let strength_frequency := foldl categorize_strength ∅ all_strengths in
      frames ← mapM frame_entry analysis_results;
      lo ← py_min scores;
      hi ← py_max scores;
      ret (Summary.mk
             (default "Unknown" (VideoMetadata.filename video_metadata))
             (default (S754_zero false) (VideoMetadata.duration video_metadata))
             (default (0, 0) (VideoMetadata.resolution video_metadata))
             total_frames
             frames
             (Summary.mk_performance
                (round1 avg_score) lo hi (hi - lo)
                (_get_performance_rating avg_score))
             cover_stats
             total_soldier_count
             (list_to_set formations)
             (Summary.mk_tactical (Z.of_nat (length all_errors))
                error_frequency (slice_to all_errors 5))
             (Summary.mk_tactical (Z.of_nat (length all_strengths))
                strength_frequency (slice_to all_strengths 5))
             (_generate_recommendations avg_score error_frequency
                strength_frequency))
  end.

(** ** config.py: the frame-extraction settings *)

Module Config.
(** The two settings read from the environment. *)
Record t : Type := mk {
  NUM_FRAMES : Z;
  FRAME_RESIZE_MAX : Z
}.

(** The class attribute [FRAME_EXTRACTION_POSITIONS = [0.25, 0.50, 0.75]]. *)
Definition FRAME_EXTRACTION_POSITIONS : list float :=
  [literal 25 2; literal 50 2; literal 75 2].

(** The settings when the environment sets neither [NUM_FRAMES] nor
    [FRAME_RESIZE_MAX]: 3 and 720. *)
Definition default : t := mk 3 720.
End Config.

(** ** frame_extractor.py *)

(** A PIL image: its size and its pixel buffer. *)
Module Image.
Record t : Type := mk {
  width : Z;
  height : Z;
  pixels : list Z
}.
End Image.

(** An opened [cv2.VideoCapture]: the two properties the extractor reads,
    both doubles, and the frame decoded after seeking to a frame number
    ([None] when [cap.read()] reports failure). *)
Module Capture.
Record t : Type := mk {
  fps : float;
  frame_count : float;
  read : Z -> option Image.t
}.
End Capture.

(** What [video_path] leads to. *)
Inductive video_file : Type :=
| NoSuchFile
| CannotOpen
| Video (cap : Capture.t).

(** [x or d] for an optional int: [None] and [0] are falsy. *)
Definition int_or (x : option Z) (d : Z) : Z :=
  match x with
  | Some n => if n =? 0 then d else n
  | None => d
  end.

(** [x or d] for an optional list: [None] and [[]] are falsy. *)
Definition list_or {A : Type} (x : option (list A)) (d : list A) : list A :=
  match x with
  | Some (a :: l) => a :: l
  | _ => d
  end.

(** A [for] loop whose body may raise. *)
Fixpoint for_each {A B : Type} (body : B -> A -> result B) (acc : B)
    (l : list A) : result B :=
  match l with
  | [] => ret acc
  | a :: l' => acc' ← body acc a; for_each body acc' l'
  end.

(** [int(total_frames * position)] *)
Definition frame_number (total_frames : Z) (position : float) : result Z :=
  x ← int_mul_float total_frames position; int_of_float x.

(** [positions[:num_frames]] after the defaults are filled in: the
    positions the loop of [extract_key_frames] visits. *)
Definition sample_plan (config : Config.t) (num_frames : option Z)
    (positions : option (list float)) : list float :=
  let num_frames := int_or num_frames (Config.NUM_FRAMES config) in
  let positions := list_or positions Config.FRAME_EXTRACTION_POSITIONS in
  slice_to positions num_frames.

Section FrameExtractor.

(** [image.resize((w, h), Image.Resampling.LANCZOS)] of PIL. *)
Variable Image_resize : Image.t -> Z -> Z -> result Image.t.

Definition _resize_image (image : Image.t) (max_dimension : Z)
  : result Image.t :=
  let width := Image.width image in
  let height := Image.height image in
  if (width <=? max_dimension) && (height <=? max_dimension) then ret image
  else
    size ← (if height <? width then
              ratio ← int_truediv max_dimension width;
              x ← int_mul_float height ratio;
              new_height ← int_of_float x;
              ret (max_dimension, new_height)
            else
              ratio ← int_truediv max_dimension height;
              x ← int_mul_float width ratio;
              new_width ← int_of_float x;
              ret (new_width, max_dimension));
    Image_resize image size.1 size.2.

(** The body of the loop over [positions[:num_frames]]. *)
Definition extract_frame (cap : Capture.t) (total_frames resize_max : Z)
    (frames : list (Image.t * float)) (position : float)
  : result (list (Image.t * float)) :=
  frame_number ← frame_number total_frames position;
  timestamp ← int_div_float frame_number (Capture.fps cap);
  match Capture.read cap frame_number with
  | None => ret frames
  | Some pil_image =>
      pil_image ← (if resize_max =? 0 then ret pil_image
                   else _resize_image pil_image resize_max);
      ret (frames ++ [(pil_image, timestamp)])
  end.

Definition extract_key_frames (config : Config.t) (video_path : video_file)
    (num_frames : option Z) (positions : option (list float))
    (resize_max : option Z) : result (list (Image.t * float)) :=
  let plan := sample_plan config num_frames positions in
  let resize_max := int_or resize_max (Config.FRAME_RESIZE_MAX config) in
  match video_path with
  | NoSuchFile => raise FileNotFoundError
  | CannotOpen => raise (ValueError "Cannot open video file")
  | Video cap =>
      total_frames ← int_of_float (Capture.frame_count cap);
      duration ← int_div_float total_frames (Capture.fps cap);
      for_each (extract_frame cap total_frames resize_max) [] plan
  end.

End FrameExtractor.

(** ** config.py: the limits that [validate_video] reads, and [validate] *)

Module Limits.
(** The two limits read from the environment. *)
Record t : Type := mk {
  MAX_VIDEO_DURATION : Z;
  MAX_FILE_SIZE_MB : Z
}.

Definition SUPPORTED_FORMATS : list string :=
  [".mp4"; ".mov"; ".avi"; ".mkv"; ".wmv"].

(** The limits when the environment sets neither: 120 s and 100 MB. *)
Definition default : t := mk 120 100.
End Limits.

(** [Config.validate()]: the list of the error messages.  [GEMINI_API_KEY]
    is the third setting it reads; [str] of an int is its decimal
    numeral. *)
Definition validate (GEMINI_API_KEY : string) (config : Config.t)
  : list string :=
  let errors := [] in
  let errors :=
    append_if ((GEMINI_API_KEY =? "")%string
               || (GEMINI_API_KEY =? "your_gemini_api_key_here")%string)
      "GEMINI_API_KEY not set in .env file" errors in
  let errors :=
    append_if (Config.NUM_FRAMES config <? 1)
      ("NUM_FRAMES must be at least 1, got "
       +:+ pretty (Config.NUM_FRAMES config)) errors in
  let errors :=
    append_if (Config.FRAME_RESIZE_MAX config <? 100)
      ("FRAME_RESIZE_MAX must be at least 100, got "
       +:+ pretty (Config.FRAME_RESIZE_MAX config)) errors in
  errors.

(** ** frame_extractor.py: [validate_video] *)

(** What [validate_video] reads of a path: its name and suffix, the size
    of the file, what opening it gives, and the width and height that
    the capture reports (doubles, as every capture property). *)
Module VideoPath.
Record t : Type := mk {
  name : string;
  suffix : string;
  st_size : Z;
  opens : video_file;
  frame_width : float;
  frame_height : float
}.
End VideoPath.

(** A Python number: [duration] is a float, or the int 0. *)
Inductive number : Type :=
| Int (n : Z)
| Float (x : float).

(** [x > n] for a float and an int: Python compares the exact values. *)
Definition float_gt_int (x : float) (n : Z) : bool :=
  match x with
  | S754_nan => false
  | S754_infinity s => negb s
  | S754_zero _ => n <? 0
  | S754_finite s m e =>
      let v := if s then Zneg m else Zpos m in
      match e with
      | Zneg k => n * 2 ^ Zpos k <? v
      | _ => n <? v * 2 ^ e
      end
  end.

Definition number_gt_int (x : number) (n : Z) : bool :=
  match x with
  | Int k => n <? k
  | Float f => float_gt_int f n
  end.

(** The reasons for ['valid': False]; the text of the message is left
    out. *)
Inductive rejection : Type :=
| FileNotFound
| UnsupportedFormat
| FileTooLarge
| CannotOpenVideo
| VideoTooLong.

(** The ['metadata'] of a valid video. *)
Module Metadata.
Record t : Type := mk {
  filename : string;
  size_mb : float;
  duration : number;
  fps : float;
  resolution : Z * Z;
  frame_count : Z
}.
End Metadata.

Definition validate_video (limits : Limits.t) (video_path : VideoPath.t)
  : result (rejection + Metadata.t) :=
  match VideoPath.opens video_path with
  | NoSuchFile => ret (inl FileNotFound)
  | opened =>
      if negb (bool_decide (lower (VideoPath.suffix video_path)
                            ∈ Limits.SUPPORTED_FORMATS))
      then ret (inl UnsupportedFormat)
      else
        file_size_mb ← int_truediv (VideoPath.st_size video_path)
                         (1024 * 1024);
        if float_gt_int file_size_mb (Limits.MAX_FILE_SIZE_MB limits)
        then ret (inl FileTooLarge)
        else
          match opened with
          | Video cap =>
              let fps := Capture.fps cap in
              total_frames ← int_of_float (Capture.frame_count cap);
              width ← int_of_float (VideoPath.frame_width video_path);
              height ← int_of_float (VideoPath.frame_height video_path);
              duration ← (if float_gt_int fps 0
                          then x ← int_div_float total_frames fps;
                               ret (Float x)
                          else ret (Int 0));
              if number_gt_int duration (Limits.MAX_VIDEO_DURATION limits)
              then ret (inl VideoTooLong)
              else ret (inr (Metadata.mk (VideoPath.name video_path)
                               file_size_mb duration fps (width, height)
                               total_frames))
          | _ => ret (inl CannotOpenVideo)
          end
  end.

(** A model of PIL's resize: sizes below 1 are rejected with [ValueError],
    otherwise an image of the requested size is returned (the resampled
    pixels are left out). *)
Definition pil_resize (img : Image.t) (w h : Z) : result Image.t :=
  if (w <? 1) || (h <? 1) then raise (ValueError "height and width must be > 0")
  else ret (Image.mk w h []).

(** ** What the loop of [extract_key_frames] leaves for one position *)

(** One pass of the loop over [positions[:num_frames]]: the frame number
    is [int(total_frames * position)] and the timestamp is
    [frame_number / fps]; when [cap.read()] fails nothing is appended,
    otherwise the frame that was read, resized unless [resize_max] is 0,
    is appended with the timestamp. *)
Definition frame_outcome
    (Image_resize : Image.t -> Z -> Z -> result Image.t) (cap : Capture.t)
    (total_frames resize_max : Z) (position : float)
    (outcome : option (Image.t * float)) : Prop :=
  exists number timestamp,
    frame_number total_frames position = inr number
    /\ int_div_float number (Capture.fps cap) = inr timestamp
    /\ match outcome with
       | None => Capture.read cap number = None
       | Some frame =>
           frame.2 = timestamp
           /\ exists pil_image,
                Capture.read cap number = Some pil_image
                /\ (if resize_max =? 0 then ret pil_image
                    else _resize_image Image_resize pil_image resize_max)
                   = inr frame.1
       end.

(** An image fits in a square of side [max_dimension]. *)
Definition fits (max_dimension : Z) (image : Image.t) : Prop :=
  Image.width image <= max_dimension /\ Image.height image <= max_dimension.

(** ** run_stage3_infographic.py: from the analysis files to the summary *)

(** A parsed [analysis_*.json] file: the analysis dict, and its entry
    'timestamp', read with [analysis.get('timestamp', 0)]. *)
Module AnalysisFile.
Record t : Type := mk {
  analysis : Analysis.t;
  timestamp : option float
}.
End AnalysisFile.

(** The loop over [enumerate(analysis_files)]. *)
Definition load_results (analysis_files : list AnalysisFile.t)
  : list FrameResult.t :=
  imap (fun i file =>
          FrameResult.mk (Some (AnalysisFile.analysis file))
            (Some (Z.of_nat i))
            (Some (default (S754_zero false) (AnalysisFile.timestamp file))))
       analysis_files.

(** [max(l)] on floats: an item replaces the maximum when it compares
    greater. *)
Definition max_float (l : list float) : result float :=
  match l with
  | [] => raise (ValueError "max() arg is an empty sequence")
  | x :: l' => ret (foldl (fun m y => if SFltb m y then y else m) x l')
  end.

(** The script up to the call of [aggregate_analysis]. *)
Definition stage3_summary (video_name : string)
    (analysis_files : list AnalysisFile.t) : result Summary.t :=
  let analysis_results := load_results analysis_files in
  timestamps ← mapM (fun r => getitem "timestamp" (FrameResult.timestamp r))
                 analysis_results;
  latest ← max_float timestamps;
  let video_metadata :=
    VideoMetadata.mk (Some (video_name +:+ ".mp4"))
      (Some (fmul latest (literal 133 2))) (Some (1280, 720)) in
  aggregate_analysis analysis_results video_metadata.

(** ** The specification's reading of the recommendation rules *)

(** The recommendations whose condition holds, in the order of the rules
    of the specification (section 4.2, rules 1 to 6). *)
Definition fired_recommendations
    (avg_score : float) (errors strengths : gmap string Z) : list string :=
  (if lt_int avg_score 70 then [rec_fundamentals] else []) ++
  (if 2 <=? get0 errors "spacing_issues" then [rec_spacing] else []) ++
  (if 2 <=? get0 errors "cover_issues" then [rec_cover] else []) ++
  (if 2 <=? get0 errors "formation_issues" then [rec_formation] else []) ++
  (if 2 <=? get0 strengths "weapon_discipline" then [rec_weapon] else []) ++
  (if 2 <=? get0 strengths "formation_discipline" then [rec_entry] else []).

(** The number of strings of [l] that satisfy [p], as a dict entry: a
    category that no string matches has no key. *)
Definition tally (p : string -> bool) (l : list string) : option Z :=
  match filter (fun s => p s = true) l with
  | [] => None
  | m => Some (Z.of_nat (length m))
  end.

(** [word in text.lower()] *)
Definition mentions (word text : string) : bool := contains word (lower text).

(** The keys that the two categorisation loops can create. *)
Definition error_categories : list string :=
  ["spacing_issues"; "cover_issues"; "formation_issues"].

Definition strength_categories : list string :=
  ["cover_utilization"; "formation_discipline"; "weapon_discipline"].

(** ** Sample inputs *)

(** A full-HD frame and a small frame with empty pixel buffers. *)
Definition full_hd : Image.t := Image.mk 1920 1080 [].
Definition small_frame : Image.t := Image.mk 16 15 [].

(** A capture of 100 full-HD frames at 25 frames per second whose frame
    50 cannot be read. *)
Definition sample_capture : Capture.t :=
  Capture.mk (const 25) (const 100)
    (fun number => if number =? 50 then None else Some full_hd).

(** The same capture with a frame rate of 0. *)
Definition stalled_capture : Capture.t :=
  Capture.mk (S754_zero false) (const 100) (Capture.read sample_capture).

(** A capture of 100 full-HD frames at 25 frames per second: the frames
    0 to 99 can be read, a read at any other index fails. *)
Definition ended_capture : Capture.t :=
  Capture.mk (const 25) (const 100)
    (fun number =>
       if (0 <=? number) && (number <? 100) then Some full_hd else None).

(** A path to a clip of 5 MB that opens as [sample_capture], and one
    that opens as [stalled_capture]. *)
Definition sample_path : VideoPath.t :=
  VideoPath.mk "clip.MP4" ".MP4" (5 * 1024 * 1024) (Video sample_capture)
    (const 1920) (const 1080).

Definition stalled_path : VideoPath.t :=
  VideoPath.mk "clip.mp4" ".mp4" (5 * 1024 * 1024) (Video stalled_capture)
    (const 1920) (const 1080).

(** Two analysis files, the second without a timestamp. *)
Definition sample_files : list AnalysisFile.t :=
  [AnalysisFile.mk (Analysis.mk (Some 80) None None None None None)
     (Some (const 2));
   AnalysisFile.mk (Analysis.mk (Some 60) None None None None None) None].

Definition no_metadata : VideoMetadata.t := VideoMetadata.mk None None None.

(** A frame result with a score, a list of errors and a list of strengths. *)
Definition sample_result (index score : Z) (errors strengths : list string)
  : FrameResult.t :=
  FrameResult.mk
    (Some (Analysis.mk (Some score) None None None (Some errors) (Some strengths)))
    (Some index) (Some (S754_zero false)).

(** Which exceptions the parts of [aggregate_analysis] can raise. *)
Definition is_key_error (e : exn) : bool :=
  match e with KeyError _ => true | _ => false end.

(** The entry of a dict after [count_if]. *)
Definition bump (cond : bool) (entry : option Z) : option Z :=
  if cond then Some (default 0 entry + 1) else entry.

(** Three frames scored 80, 60 and 100. *)
Definition three_frames : list FrameResult.t :=
  [sample_result 0 80 [] []; sample_result 1 60 [] [];
   sample_result 2 100 [] []].

(** The three frames in another order. *)
Definition three_frames_reordered : list FrameResult.t :=
  [sample_result 2 100 [] []; sample_result 0 80 [] [];
   sample_result 1 60 [] []].

Definition multi_category_results : list FrameResult.t :=
  [sample_result 0 80
     ["Tight spacing, exposed without COVER, broken Formation"]
     ["Stack held its formation behind cover with muzzle discipline"]].

(** ** Records with missing fields *)

(** The three keys that [aggregate_analysis] reads with [r[...]]. *)
Definition has_keys (r : FrameResult.t) : Prop :=
  is_Some (FrameResult.analysis r)
  /\ is_Some (FrameResult.index r)
  /\ is_Some (FrameResult.timestamp r).

(** A score whose magnitude a double can hold (the data model of the
    specification has scores in [[0, 100]]). *)
Definition score_in_range (r : FrameResult.t) : Prop :=
  match FrameResult.analysis r with
  | Some a => Z.abs (get_score a) <= 2 ^ 971
  | None => True
  end.



(** A frame result whose score is too large for a double. *)
Definition huge_score_result : FrameResult.t :=
  FrameResult.mk
    (Some (Analysis.mk (Some (2 ^ 1100)) None None None None None))
    (Some 0) (Some (S754_zero false)).


(** The record [r] lacks [key], one of the three keys that
    [aggregate_analysis] reads with [r[...]]. *)
Definition lacks_key (key : string) (r : FrameResult.t) : Prop :=
  (key = "analysis" /\ FrameResult.analysis r = None)
  \/ (key = "index" /\ FrameResult.index r = None)
  \/ (key = "timestamp" /\ FrameResult.timestamp r = None).

(** A frame result without the key 'analysis', and one without 'index'. *)
Definition no_analysis_result : FrameResult.t :=
  FrameResult.mk None (Some 1) (Some (S754_zero false)).

Definition no_index_result : FrameResult.t :=
  FrameResult.mk (Some (Analysis.mk None None None None None None))
    None (Some (S754_zero false)).

(** A frame result whose cover summary has a key that is not one of the
    four cover statistics. *)
Definition foreign_cover_result : FrameResult.t :=
  FrameResult.mk
    (Some (Analysis.mk (Some 70) None
             (Some (<["behind_wall" := 3]> (<["exposed" := 2]> ∅)))
             None None None))
    (Some 0) (Some (S754_zero false)).

(** ** Scaled image dimensions *)

(** [int(other * (max_dimension / larger))], the dimension that
    [_resize_image] computes for the side it does not set to
    [max_dimension]. *)
Definition truncated_scale (other larger max_dimension : Z) : result Z :=
  ratio ← int_truediv max_dimension larger;
  x ← int_mul_float other ratio;
  int_of_float x.

(** [round(other * max_dimension / larger)], the value the specification
    gives for that dimension. *)
Definition rounded_scale (other larger max_dimension : Z) : Z :=
  round_half_even (other * max_dimension) larger.

(** The sizes for which the bounds on the scaled dimension are proved
    (PIL itself keeps both sides below [2 ^ 31]). *)
Definition well_sized (image : Image.t) : Prop :=
  0 <= Image.width image < 2 ^ 52 /\ 0 <= Image.height image < 2 ^ 52.

(** The sizes for which the scaled dimension is compared with the exact
    quotient: sides of at most [2 ^ 26] pixels. *)
Definition modest_size (image : Image.t) : Prop :=
  0 <= Image.width image <= 2 ^ 26 /\ 0 <= Image.height image <= 2 ^ 26.

(** A frame of 2000 by 1 pixels. *)
Definition sliver : Image.t := Image.mk 2000 1 [].

(** ** Reals for the rounding bounds *)

(** [2 ^ e] as a real. *)
Definition bpow (e : Z) : R := powerRZ 2 e.

(** Where a real [x] lies with respect to the integer [m] of a shift
    record: on [m], between [m] and the half, on the half, or beyond. *)
Definition rec_in (mrs : shr_record) (x : R) : Prop :=
  match shr_r mrs, shr_s mrs with
  | false, false => x = IZR (shr_m mrs)
  | false, true => (IZR (shr_m mrs) < x < IZR (shr_m mrs) + / 2)%R
  | true, false => x = (IZR (shr_m mrs) + / 2)%R
  | true, true => (IZR (shr_m mrs) + / 2 < x < IZR (shr_m mrs) + 1)%R
  end.

(** [r] is a zero, or has sign [s] and a magnitude of at most [B]; an
    infinity stands for a magnitude of at least [2 ^ (emax - prec + 1)]. *)
Definition bounded_by (s : bool) (r : float) (B : R) : Prop :=
  match r with
  | S754_zero _ => True
  | S754_finite s' m e => s' = s /\ (IZR (Zpos m) * bpow e <= B)%R
  | S754_infinity s' => s' = s /\ (bpow (emax - prec + 1) <= B)%R
  | S754_nan => False
  end.

(** The bound on a correctly rounded positive real [X]: a relative error
    of [2 ^ -53], or half the smallest subnormal. *)
Definition rnd_bound (X : R) : R := (X * (1 + bpow (-53)) + bpow (-1075))%R.

(** * Properties *)

(** Closed decidable goals are settled by evaluation. *)
Ltac decide_closed := apply (bool_decide_unpack _); vm_compute; reflexivity.

Ltac closed_iff :=
  split; intros ?H;
  first [ discriminate | reflexivity | decide_closed
        | exfalso; revert H; decide_closed ].

(** [const n] is replaced by its value. *)
Ltac eval_const n :=
  let v := eval vm_compute in (const n) in
  replace (const n) with v by (vm_compute; reflexivity).

(** ** Recommendations *)

Lemma slice_to_nonneg {A : Type} (l : list A) (n : Z) :
  0 <= n -> slice_to l n = firstn (Z.to_nat n) l.
Proof.
  intros Hn. unfold slice_to.
  destruct (n <? 0) eqn:E; [apply Z.ltb_lt in E; lia | reflexivity].
Qed.

(** C3.  [_generate_recommendations] returns the recommendations whose
    condition holds, in the fixed order fundamentals, spacing, cover,
    formation, weapon, entry, cut after the fifth; the two default
    recommendations are returned exactly when no condition holds; the list
    never has more than 5 elements. *)
Theorem generate_recommendations_ordered_capped
    (avg_score : float) (errors strengths : gmap string Z) :
  let fired := fired_recommendations avg_score errors strengths in
  let recs := _generate_recommendations avg_score errors strengths in
  recs = match fired with
         | [] => [rec_continue; rec_consistency]
         | _ => firstn 5 fired
         end
  /\ (length recs <= 5)%nat
  /\ (rec_continue ∈ recs <-> fired = [])
  /\ (rec_consistency ∈ recs <-> fired = [])
  /\ sublist recs [rec_fundamentals; rec_spacing; rec_cover; rec_formation;
                   rec_weapon; rec_entry; rec_continue; rec_consistency].
Proof.
  unfold fired_recommendations, _generate_recommendations.
  destruct (lt_int avg_score 70);
    destruct (2 <=? get0 errors "spacing_issues");
    destruct (2 <=? get0 errors "cover_issues");
    destruct (2 <=? get0 errors "formation_issues");
    destruct (2 <=? get0 strengths "weapon_discipline");
    destruct (2 <=? get0 strengths "formation_discipline");
    cbn [append_if app]; rewrite slice_to_nonneg by lia;
    cbn [firstn Z.to_nat Pos.to_nat Pos.iter_op Init.Nat.add length];
    (split; [reflexivity |]); (split; [simpl; lia |]);
    (split; [closed_iff |]); (split; [closed_iff |]);
    repeat first [apply sublist_nil | apply sublist_skip | apply sublist_cons].
Qed.

(** ** Rating bands *)

(** A float at or above a threshold is at or above every lower one. *)
Lemma ge_int_thresholds (score : float) :
  (ge_int score 90 = true -> ge_int score 75 = true)
  /\ (ge_int score 75 = true -> ge_int score 60 = true)
  /\ (ge_int score 60 = true -> ge_int score 50 = true).
Proof.
  unfold ge_int, SFleb.
  eval_const 90; eval_const 75; eval_const 60; eval_const 50.
  destruct score as [s | [] | | [] m e]; unfold SFcompare;
    try (repeat split; congruence).
  change (Pos.compare_cont Eq ?a ?b) with (Z.compare (Zpos a) (Zpos b)).
  repeat match goal with
         | |- context [Z.compare ?a ?b] => destruct (Z.compare_spec a b)
         end;
    repeat split; intros; try reflexivity; try discriminate; exfalso; lia.
Qed.

(** C4.  The rating is decided by inclusive lower bounds: "Excellent" from
    90, "Good" from 75, "Satisfactory" from 60, "Needs Improvement" from 50
    and "Requires Remedial Training" below (and for NaN); so 90 is
    "Excellent", 89.999 is "Good", 50 is "Needs Improvement" and 49.999 is
    "Requires Remedial Training". *)
Theorem get_performance_rating_bands (score : float) :
  let rating := _get_performance_rating score in
  (rating = "Excellent" <-> ge_int score 90 = true)
  /\ (rating = "Good" <-> ge_int score 75 = true /\ ge_int score 90 = false)
  /\ (rating = "Satisfactory" <->
      ge_int score 60 = true /\ ge_int score 75 = false)
  /\ (rating = "Needs Improvement" <->
      ge_int score 50 = true /\ ge_int score 60 = false)
  /\ (rating = "Requires Remedial Training" <-> ge_int score 50 = false)
  /\ _get_performance_rating (const 90) = "Excellent"
  /\ _get_performance_rating (literal 89999 3) = "Good"
  /\ _get_performance_rating (const 50) = "Needs Improvement"
  /\ _get_performance_rating (literal 49999 3) = "Requires Remedial Training".
Proof.
  intros rating.
  assert (Hex : _get_performance_rating (const 90) = "Excellent"
                /\ _get_performance_rating (literal 89999 3) = "Good"
                /\ _get_performance_rating (const 50) = "Needs Improvement"
                /\ _get_performance_rating (literal 49999 3)
                   = "Requires Remedial Training")
    by (vm_compute; auto).
  revert Hex. generalize (_get_performance_rating (const 90)),
    (_get_performance_rating (literal 89999 3)),
    (_get_performance_rating (const 50)),
    (_get_performance_rating (literal 49999 3)).
  intros r1 r2 r3 r4 (-> & -> & -> & ->).
  destruct (ge_int_thresholds score) as (H1 & H2 & H3).
  subst rating. unfold _get_performance_rating.
  destruct (ge_int score 90), (ge_int score 75), (ge_int score 60),
    (ge_int score 50);
    try (specialize (H1 eq_refl)); try (specialize (H2 eq_refl));
    try (specialize (H3 eq_refl)); try discriminate;
    repeat match goal with
           | |- _ /\ _ => split
           | |- _ <-> _ => split; intros ?
           | H : _ /\ _ |- _ => destruct H
           end;
    try discriminate; try reflexivity.
Qed.

(** ** The error monad *)

Lemma bind_inr {A B : Type} (c : result A) (k : A -> result B) (b : B) :
  c ≫= k = inr b -> exists a, c = inr a /\ k a = inr b.
Proof. destruct c as [e | a]; [discriminate | eauto]. Qed.

Lemma mapM_cons {A B : Type} (f : A -> result B) (x : A) (l : list A) :
  mapM f (x :: l) = y ← f x; k ← mapM f l; mret (y :: k).
Proof. reflexivity. Qed.

Lemma mapM_getitem_inr {A B : Type} (f : A -> option B) (key : string)
    (l : list A) (k : list B) :
  mapM (fun r => getitem key (f r)) l = inr k -> map f l = map Some k.
Proof.
  revert k. induction l as [| x l IH]; intros k H.
  - inversion H. reflexivity.
  - rewrite mapM_cons in H.
    apply bind_inr in H as (y & Hy & H).
    apply bind_inr in H as (k' & Hk & H).
    inversion H; subst. cbn. destruct (f x) as [b |]; inversion Hy; subst.
    f_equal. auto.
Qed.

Lemma mapM_inr_length {A B : Type} (f : A -> result B) (l : list A)
    (k : list B) :
  mapM f l = inr k -> length k = length l.
Proof.
  revert k. induction l as [| x l IH]; intros k H.
  - inversion H. reflexivity.
  - rewrite mapM_cons in H.
    apply bind_inr in H as (y & Hy & H).
    apply bind_inr in H as (k' & Hk & H).
    inversion H; subst. cbn. f_equal. auto.
Qed.

Lemma omap_map_Some {A B : Type} (f : A -> option B) (l : list A) (k : list B) :
  map f l = map Some k -> omap f l = k.
Proof.
  revert k. induction l as [| x l IH]; intros [| y k] H; try discriminate.
  - reflexivity.
  - cbn in H. injection H as Hx Hl. cbn. rewrite Hx. cbn. f_equal. auto.
Qed.

Lemma bind_inl {A B : Type} (c : result A) (k : A -> result B) (e : exn) :
  c ≫= k = inl e -> c = inl e \/ exists a, c = inr a /\ k a = inl e.
Proof.
  destruct c as [e' | a]; intros H; [left | right; eauto].
  injection H as ->. reflexivity.
Qed.

Lemma mapM_inl {A B : Type} (f : A -> result B) (P : exn -> Prop)
    (l : list A) (e : exn) :
  (forall x e', f x = inl e' -> P e') -> mapM f l = inl e -> P e.
Proof.
  intros Hf. induction l as [| x l IH]; [discriminate |].
  rewrite mapM_cons. intros H.
  apply bind_inl in H as [H | (y & _ & H)]; [eauto |].
  apply bind_inl in H as [H | (k & _ & H)]; [eauto | discriminate].
Qed.

Lemma getitem_inl {A : Type} (key : string) (field : option A) (e : exn) :
  getitem key field = inl e -> is_key_error e = true.
Proof. destruct field; [discriminate |]. intros [= <-]. reflexivity. Qed.

Lemma frame_entry_inl (r : FrameResult.t) (e : exn) :
  frame_entry r = inl e -> is_key_error e = true.
Proof.
  unfold frame_entry. intros H.
  repeat (apply bind_inl in H as [H | (? & _ & H)];
          [by apply getitem_inl in H |]).
  discriminate.
Qed.

Lemma int_truediv_inl (a b : Z) (e : exn) :
  int_truediv a b = inl e -> e = ZeroDivisionError \/ e = OverflowError.
Proof.
  unfold int_truediv. destruct (b =? 0); [intros [= <-]; by left |].
  destruct a; [discriminate | |];
    (destruct (fdiv _ _); try discriminate; intros [= <-]; by right).
Qed.

(** ** The shape of a summary *)

(** What [aggregate_analysis] has computed when it returns. *)
Lemma aggregate_analysis_inr (analysis_results : list FrameResult.t)
    (video_metadata : VideoMetadata.t) (summary : Summary.t) :
  aggregate_analysis analysis_results video_metadata = inr summary ->
  let analyses := omap FrameResult.analysis analysis_results in
  let scores := map get_score analyses in
  let all_errors := concat (map get_errors analyses) in
  let all_strengths := concat (map get_strengths analyses) in
  let error_frequency := foldl categorize_error ∅ all_errors in
  let strength_frequency := foldl categorize_strength ∅ all_strengths in
  exists avg_score lo hi,
    length analyses = length analysis_results
    /\ analysis_results <> []
    /\ int_truediv (py_sum scores) (Z.of_nat (length analysis_results))
       = inr avg_score
    /\ py_min scores = inr lo
    /\ py_max scores = inr hi
    /\ Summary.overall_performance summary
       = Summary.mk_performance (round1 avg_score) lo hi (hi - lo)
           (_get_performance_rating avg_score)
    /\ Summary.tactical_errors summary
       = Summary.mk_tactical (Z.of_nat (length all_errors)) error_frequency
           (slice_to all_errors 5)
    /\ Summary.tactical_strengths summary
       = Summary.mk_tactical (Z.of_nat (length all_strengths))
           strength_frequency (slice_to all_strengths 5)
    /\ Summary.recommendations summary
       = _generate_recommendations avg_score error_frequency
           strength_frequency
    /\ Summary.cover_statistics summary
       = foldl (fun stats a => add_cover stats (get_cover_summary a))
           (list_to_map (map (fun key => (key, 0)) cover_keys)) analyses
    /\ Summary.total_soldiers summary
       = py_sum (map get_soldier_count analyses)
    /\ mapM frame_entry analysis_results
       = inr (Summary.frames_analyzed summary).
Proof.
  intros H. unfold aggregate_analysis in H.
  destruct analysis_results as [| r rs]; [discriminate |].
  set (l := r :: rs) in *.
  apply bind_inr in H as (analyses & Han & H).
  apply bind_inr in H as (avg_score & Havg & H).
  apply bind_inr in H as (frames & Hfr & H).
  apply bind_inr in H as (lo & Hlo & H).
  apply bind_inr in H as (hi & Hhi & H).
  injection H as <-.
  pose proof (mapM_inr_length _ _ _ Han) as Hlen.
  apply mapM_getitem_inr, omap_map_Some in Han. rewrite Han.
  replace (0 <? Z.of_nat (length l)) with true in Havg
    by (symmetry; apply Z.ltb_lt; subst l; cbn [length]; lia).
  exists avg_score, lo, hi. cbn.
  repeat split; try assumption; try reflexivity. subst l; discriminate.
Qed.

(** ** Category counts *)

Lemma count_if_lookup_eq (cond : bool) (key : string) (freq : gmap string Z) :
  count_if cond key freq !! key = bump cond (freq !! key).
Proof.
  unfold count_if, bump, get0. destruct cond; [apply lookup_insert_eq | reflexivity].
Qed.

Lemma count_if_lookup_ne (cond : bool) (key k : string) (freq : gmap string Z) :
  key <> k -> count_if cond key freq !! k = freq !! k.
Proof.
  intros Hne. unfold count_if. destruct cond; [by apply lookup_insert_ne | reflexivity].
Qed.

Lemma categorize_error_lookup (freq : gmap string Z) (error : string) :
  categorize_error freq error !! "spacing_issues"
  = bump (mentions "spacing" error || mentions "tight" error)
         (freq !! "spacing_issues")
  /\ categorize_error freq error !! "cover_issues"
     = bump (mentions "cover" error || mentions "exposed" error)
            (freq !! "cover_issues")
  /\ categorize_error freq error !! "formation_issues"
     = bump (mentions "formation" error) (freq !! "formation_issues").
Proof.
  unfold categorize_error, mentions. repeat split.
  - rewrite !count_if_lookup_ne by discriminate. apply count_if_lookup_eq.
  - rewrite count_if_lookup_ne by discriminate. rewrite count_if_lookup_eq.
    by rewrite count_if_lookup_ne by discriminate.
  - rewrite count_if_lookup_eq. by rewrite !count_if_lookup_ne by discriminate.
Qed.

Lemma categorize_strength_lookup (freq : gmap string Z) (strength : string) :
  categorize_strength freq strength !! "cover_utilization"
  = bump (mentions "cover" strength) (freq !! "cover_utilization")
  /\ categorize_strength freq strength !! "formation_discipline"
     = bump (mentions "formation" strength || mentions "stack" strength)
            (freq !! "formation_discipline")
  /\ categorize_strength freq strength !! "weapon_discipline"
     = bump (mentions "weapon" strength || mentions "muzzle" strength)
            (freq !! "weapon_discipline").
Proof.
  unfold categorize_strength, mentions. repeat split.
  - rewrite !count_if_lookup_ne by discriminate. apply count_if_lookup_eq.
  - rewrite count_if_lookup_ne by discriminate. rewrite count_if_lookup_eq.
    by rewrite count_if_lookup_ne by discriminate.
  - rewrite count_if_lookup_eq. by rewrite !count_if_lookup_ne by discriminate.
Qed.

Section Tally.

Variable step : gmap string Z -> string -> gmap string Z.
Variable key : string.
Variable p : string -> bool.
Hypothesis step_key :
  forall freq text, step freq text !! key = bump (p text) (freq !! key).

(** A loop that bumps [key] on the strings satisfying [p] adds their
    number to the entry. *)
Lemma foldl_tally_from (l : list string) (freq : gmap string Z) :
  foldl step freq l !! key
  = match tally p l with
    | None => freq !! key
    | Some n => Some (default 0 (freq !! key) + n)
    end.
Proof.
  revert freq. unfold tally.
  induction l as [| text l IH]; intros freq; [reflexivity |].
  cbn [foldl]. rewrite IH, step_key, filter_cons. unfold bump.
  destruct (decide (p text = true)) as [-> | Hp].
  - destruct (filter _ l) as [| t m], (freq !! key);
      cbn -[Z.of_nat]; f_equal; lia.
  - apply not_true_is_false in Hp. rewrite Hp. reflexivity.
Qed.

Lemma foldl_tally (l : list string) : foldl step ∅ l !! key = tally p l.
Proof.
  rewrite foldl_tally_from, lookup_empty. cbn.
  destruct (tally p l); [f_equal; lia | reflexivity].
Qed.

End Tally.



(** ** Empty input *)

(** C5.  [aggregate_analysis] raises its [ValueError] ("No analysis
    results to aggregate") on the empty list, and raises no [ValueError]
    on any other list. *)
Theorem aggregate_analysis_empty_input (analysis_results : list FrameResult.t)
    (video_metadata : VideoMetadata.t) :
  aggregate_analysis [] video_metadata
  = inl (ValueError "No analysis results to aggregate")
  /\ ((exists msg, aggregate_analysis analysis_results video_metadata
                   = inl (ValueError msg))
      <-> analysis_results = []).
Proof.
  split; [reflexivity |]. split.
  - intros [msg H]. destruct analysis_results as [| r rs]; [reflexivity |].
    exfalso. unfold aggregate_analysis in H. set (l := r :: rs) in *.
    apply bind_inl in H as [H | (analyses & Han & H)].
    { apply mapM_inl with (P := fun e => is_key_error e = true) in H;
        [discriminate | intros x e'; apply getitem_inl]. }
    apply mapM_inr_length in Han.
    apply bind_inl in H as [H | (avg & _ & H)].
    { destruct (0 <? _); [| discriminate].
      apply int_truediv_inl in H as [H | H]; discriminate. }
    apply bind_inl in H as [H | (frames & _ & H)].
    { apply mapM_inl with (P := fun e => is_key_error e = true) in H;
        [discriminate | intros x e'; apply frame_entry_inl]. }
    destruct analyses as [| a analyses]; [discriminate |].
    cbn in H. discriminate.
  - intros ->. eauto.
Qed.

(** ** Defaults of [extract_key_frames] *)

Lemma int_or_default (d : Z) : int_or (Some d) d = d.
Proof. unfold int_or. destruct (d =? 0); reflexivity. Qed.

(** C9, as the code has it.  A falsy argument of [extract_key_frames] is
    replaced by the configured value: an empty [positions] by
    [0.25, 0.50, 0.75], [num_frames = 0] by [NUM_FRAMES] (3 by default),
    [resize_max = 0] by [FRAME_RESIZE_MAX] (720 by default); and when the
    number of frames in effect is at least 1, a call with an empty
    [positions] has a sample plan that is not empty. *)
Theorem falsy_arguments_use_config
    (Image_resize : Image.t -> Z -> Z -> result Image.t)
    (config : Config.t) (video_path : video_file)
    (num_frames : option Z) (positions : option (list float))
    (resize_max : option Z) :
  extract_key_frames Image_resize config video_path num_frames (Some [])
    resize_max
  = extract_key_frames Image_resize config video_path num_frames
      (Some Config.FRAME_EXTRACTION_POSITIONS) resize_max
  /\ extract_key_frames Image_resize config video_path (Some 0) positions
       resize_max
     = extract_key_frames Image_resize config video_path
         (Some (Config.NUM_FRAMES config)) positions resize_max
  /\ extract_key_frames Image_resize config video_path num_frames positions
       (Some 0)
     = extract_key_frames Image_resize config video_path num_frames positions
         (Some (Config.FRAME_RESIZE_MAX config))
  /\ Config.NUM_FRAMES Config.default = 3
  /\ Config.FRAME_RESIZE_MAX Config.default = 720
  /\ sample_plan config num_frames (Some [])
     = slice_to Config.FRAME_EXTRACTION_POSITIONS
         (int_or num_frames (Config.NUM_FRAMES config))
  /\ (1 <= int_or num_frames (Config.NUM_FRAMES config) ->
      sample_plan config num_frames (Some []) <> []).
Proof.
  unfold extract_key_frames, sample_plan.
  rewrite !int_or_default. cbn [int_or list_or Z.eqb].
  repeat split.
  intros Hn. rewrite slice_to_nonneg by lia.
  destruct (Z.to_nat _) as [| n] eqn:E; [lia | discriminate].
Qed.

Lemma falsy_arguments_witness :
  1 <= int_or None (Config.NUM_FRAMES Config.default)
  /\ sample_plan Config.default None (Some [])
     = [literal 25 2; literal 50 2; literal 75 2]
  /\ sample_plan Config.default None (Some []) <> [].
Proof.
  assert (H : 1 <= int_or None (Config.NUM_FRAMES Config.default))
    by (cbn; lia).
  split; [exact H |].
  destruct (falsy_arguments_use_config pil_resize Config.default NoSuchFile
              None None None) as (_ & _ & _ & _ & _ & Hplan & Hne).
  split; [rewrite Hplan; reflexivity | exact (Hne H)].
Defined.

(** The claim of C9 that an empty [positions] never gives an empty sample
    plan fails for a negative [num_frames], and for a configuration whose
    [NUM_FRAMES] is 0. *)
Lemma empty_positions_empty_plan :
  sample_plan Config.default (Some (-3)) (Some []) = []
  /\ sample_plan (Config.mk 0 720) None (Some []) = [].
Proof. split; reflexivity. Qed.

(** ** Rounding bounds of the float operations *)

Module FloatBounds.
Local Open Scope R_scope.

Lemma bpow_pos (e : Z) : 0 < bpow e.
Proof. apply powerRZ_lt. lra. Qed.

Lemma bpow_add (a b : Z) : bpow (a + b) = bpow a * bpow b.
Proof. apply powerRZ_add. lra. Qed.

Lemma bpow_0 : bpow 0 = 1.
Proof. reflexivity. Qed.

Lemma bpow_1 : bpow 1 = 2.
Proof. unfold bpow, powerRZ. simpl. lra. Qed.

Lemma bpow_m1 : bpow (-1) = / 2.
Proof. unfold bpow, powerRZ. simpl. rewrite Rmult_1_r. reflexivity. Qed.

Lemma bpow_succ (e : Z) : bpow (e + 1) = 2 * bpow e.
Proof. rewrite bpow_add, bpow_1. lra. Qed.

Lemma bpow_pred (e : Z) : bpow (e - 1) = bpow e / 2.
Proof.
replace (e - 1)%Z with (e + -1)%Z by lia. rewrite bpow_add, bpow_m1. lra.
Qed.

Lemma bpow_IZR (k : Z) : (0 <= k)%Z -> IZR (2 ^ k) = bpow k.
Proof.
intros Hk. destruct k as [| p | p]; [reflexivity | | lia].
apply Zpower_pos_powerRZ.
Qed.

Lemma bpow_le (a b : Z) : (a <= b)%Z -> bpow a <= bpow b.
Proof.
intros H. replace b with (a + (b - a))%Z by lia. rewrite bpow_add.
assert (1 <= bpow (b - a)).
{ rewrite <- bpow_IZR by lia. apply IZR_le.
  assert (0 < 2 ^ (b - a))%Z by (apply Z.pow_pos_nonneg; lia). lia. }
pose proof (bpow_pos a). nra.
Qed.

Lemma bpow_lt (a b : Z) : (a < b)%Z -> bpow a < bpow b.
Proof.
intros H. pose proof (bpow_le (a + 1) b ltac:(lia)) as H1.
rewrite bpow_succ in H1. pose proof (bpow_pos a). lra.
Qed.

(** The number of binary digits brackets a positive number. *)
Lemma digits2_pos_bounds (p : positive) :
(2 ^ (Zpos (digits2_pos p) - 1) <= Zpos p < 2 ^ Zpos (digits2_pos p))%Z.
Proof.
induction p as [p IH | p IH |]; cbn [digits2_pos];
  rewrite ?Pos2Z.inj_succ;
  try (replace (Z.succ (Zpos (digits2_pos p)) - 1)%Z
         with (Z.succ (Zpos (digits2_pos p) - 1))%Z by lia;
       rewrite !Z.pow_succ_r by lia; lia).
cbn. lia.
Qed.

Lemma digits2_bpow (p : positive) :
bpow (Zpos (digits2_pos p) - 1) <= IZR (Zpos p) < bpow (Zpos (digits2_pos p)).
Proof.
destruct (digits2_pos_bounds p) as [H1 H2].
rewrite <- !bpow_IZR by lia. split; [apply IZR_le | apply IZR_lt]; assumption.
Qed.

(** One shift halves the real that the record brackets. *)
Lemma shr_1_in (mrs : shr_record) (x : R) :
(0 <= shr_m mrs)%Z -> rec_in mrs x ->
(0 <= shr_m (shr_1 mrs))%Z /\ rec_in (shr_1 mrs) (x / 2).
Proof.
destruct mrs as [m r s]. unfold rec_in. cbn [shr_m shr_r shr_s].
intros Hm H.
destruct m as [| [p | p |] | p]; try lia; cbn [shr_1 shr_m shr_r shr_s orb];
  (split; [lia |]);
  try rewrite (IZR_POS_xO p) in H; try rewrite (IZR_POS_xI p) in H;
  destruct r, s; cbn [orb]; lra.
Qed.

Lemma iter_pos_nat {A : Type} (f : A -> A) (p : positive) (x : A) :
SpecFloat.iter_pos f p x = Nat.iter (Pos.to_nat p) f x.
Proof.
revert x. induction p as [p IH | p IH |]; intros x; cbn [SpecFloat.iter_pos].
- rewrite !IH, Pos2Nat.inj_xI.
  replace (S (2 * Pos.to_nat p))%nat
    with (Pos.to_nat p + (Pos.to_nat p + 1))%nat by lia.
  rewrite !Nat.iter_add. reflexivity.
- rewrite !IH, Pos2Nat.inj_xO.
  replace (2 * Pos.to_nat p)%nat with (Pos.to_nat p + Pos.to_nat p)%nat
    by lia.
  rewrite Nat.iter_add. reflexivity.
- reflexivity.
Qed.

Lemma iter_shr_1_in (n : nat) (mrs : shr_record) (x : R) :
(0 <= shr_m mrs)%Z -> rec_in mrs x ->
(0 <= shr_m (Nat.iter n shr_1 mrs))%Z
/\ rec_in (Nat.iter n shr_1 mrs) (x * bpow (- Z.of_nat n)).
Proof.
intros Hm H. induction n as [| n IH].
- change (- Z.of_nat 0)%Z with 0%Z. cbn [Nat.iter].
  rewrite bpow_0, Rmult_1_r. auto.
- destruct IH as [IH1 IH2]. cbn [Nat.iter].
  destruct (shr_1_in _ _ IH1 IH2) as [H1 H2]. split; [exact H1 |].
  replace (- Z.of_nat (S n))%Z with (- Z.of_nat n + -1)%Z by lia.
  rewrite bpow_add, bpow_m1.
  replace (x * (bpow (- Z.of_nat n) * / 2)) with (x * bpow (- Z.of_nat n) / 2)
    by lra.
  exact H2.
Qed.

(** [shr] by [n] divides by [2 ^ n]. *)
Lemma shr_in (mrs mrs' : shr_record) (e n e' : Z) (x : R) :
(0 <= shr_m mrs)%Z -> rec_in mrs x -> shr mrs e n = (mrs', e') ->
e' = (e + Z.max 0 n)%Z /\ (0 <= shr_m mrs')%Z
/\ rec_in mrs' (x * bpow (e - e')).
Proof.
intros Hm H. unfold shr. destruct n as [| p | p]; intros [= <- <-].
- rewrite Z.add_0_r, Z.sub_diag, bpow_0, Rmult_1_r. auto.
- rewrite iter_pos_nat.
  destruct (iter_shr_1_in (Pos.to_nat p) _ _ Hm H) as [H1 H2].
  split; [lia |]. split; [exact H1 |].
  replace (e - (e + Zpos p))%Z with (- Z.of_nat (Pos.to_nat p))%Z
    by (rewrite positive_nat_Z; lia).
  exact H2.
- replace (e + Z.max 0 (Zneg p))%Z with e by lia.
  rewrite Z.sub_diag, bpow_0, Rmult_1_r. auto.
Qed.

Lemma rec_in_lower (mrs : shr_record) (x : R) :
rec_in mrs x -> IZR (shr_m mrs) <= x.
Proof. unfold rec_in. destruct (shr_r mrs), (shr_s mrs); lra. Qed.

(** Rounding to nearest moves by at most one half. *)
Lemma round_nearest_even_in (mrs : shr_record) (x : R) :
(0 <= shr_m mrs)%Z -> rec_in mrs x ->
let m2 := round_nearest_even (shr_m mrs) (loc_of_shr_record mrs) in
(0 <= m2)%Z /\ Rabs (IZR m2 - x) <= / 2.
Proof.
destruct mrs as [m r s]. unfold rec_in. cbn [shr_m shr_r shr_s].
intros Hm H.
destruct r, s; cbn [loc_of_shr_record round_nearest_even];
  try destruct (Z.even m); rewrite ?plus_IZR;
  (split; [lia | apply Rabs_le; lra]).
Qed.

(** The result of [binary_round_aux] on a real [x * 2 ^ ex] bracketed by
  [mx] and [lx]: an integer [m2] within one half of [x] scaled to the
  exponent [e1], and a float that [m2 * 2 ^ e1] bounds. *)
Lemma binary_round_aux_in (s : bool) (mx ex : Z) (lx : location) (x : R) :
(0 <= mx)%Z -> rec_in (shr_record_of_loc mx lx) x ->
let e1 := Z.max ex (fexp prec emax (Zdigits2 mx + ex)) in
exists m2 : Z,
  (0 <= m2)%Z /\ Rabs (IZR m2 - x * bpow (ex - e1)) <= / 2 /\
  bounded_by s (binary_round_aux prec emax s mx ex lx) (IZR m2 * bpow e1).
Proof.
intros Hm Hx e1. unfold binary_round_aux, shr_fexp.
destruct (shr (shr_record_of_loc mx lx) ex _) as [mrs' e'] eqn:E1.
apply shr_in with (x := x) in E1 as (He' & Hm' & Hx');
  [| destruct lx as [| []]; exact Hm | exact Hx].
assert (e' = e1) as -> by (subst e1; lia).
destruct (round_nearest_even_in _ _ Hm' Hx') as [Hm2 Hr].
set (m2 := round_nearest_even _ _) in *.
exists m2. split; [exact Hm2 |]. split; [exact Hr |].
destruct (shr (shr_record_of_loc m2 loc_Exact) e1 _) as [mrs'' e''] eqn:E2.
apply shr_in with (x := IZR m2) in E2 as (He'' & Hm'' & Hx'');
  [| exact Hm2 | reflexivity].
apply rec_in_lower in Hx''.
assert (Hb : bpow e1 = bpow (e1 - e'') * bpow e'').
{ rewrite <- bpow_add. f_equal. lia. }
pose proof (bpow_pos e'') as Hp.
destruct (shr_m mrs'') as [| m | m] eqn:Em; [exact I | | lia].
destruct (e'' <=? emax - prec) eqn:Ee; cbn [bounded_by].
- split; [reflexivity |]. rewrite Hb. nra.
- split; [reflexivity |]. apply Z.leb_gt in Ee.
  pose proof (bpow_le (emax - prec + 1) e'' ltac:(lia)).
  assert (1 <= IZR (Zpos m)) by (apply IZR_le; lia).
  rewrite Hb. nra.
Qed.

Lemma bounded_by_le (s : bool) (r : spec_float) (B B' : R) :
B <= B' -> bounded_by s r B -> bounded_by s r B'.
Proof.
intros HB. destruct r as [? | ? | | ? m e]; cbn [bounded_by]; try tauto;
  intros [-> H]; (split; [reflexivity | lra]).
Qed.

Lemma fexp_eq (e : Z) : fexp prec emax e = Z.max (e - 53) (-1074).
Proof. reflexivity. Qed.

Lemma Rabs_le_inv (a b : R) : Rabs a <= b -> - b <= a <= b.
Proof. unfold Rabs. destruct (Rcase_abs a); lra. Qed.

Lemma IZR_near (a b : Z) : Rabs (IZR a - IZR b) <= / 2 -> a = b.
Proof.
intros H. apply Rabs_le_inv in H. rewrite <- minus_IZR in H.
destruct H as [H1 H2].
assert (-1 < a - b)%Z by (apply lt_IZR; lra).
assert (a - b < 1)%Z by (apply lt_IZR; lra). lia.
Qed.

(** No rounding takes place when the exponent is already the right one. *)
Lemma binary_round_aux_exact (s : bool) (mx ex : Z) :
(0 <= mx)%Z -> (fexp prec emax (Zdigits2 mx + ex) <= ex)%Z ->
bounded_by s (binary_round_aux prec emax s mx ex loc_Exact)
  (IZR mx * bpow ex).
Proof.
intros Hm He.
destruct (binary_round_aux_in s mx ex loc_Exact (IZR mx) Hm eq_refl)
  as (m2 & Hm2 & Hr & Hb).
replace (Z.max ex (fexp prec emax (Zdigits2 mx + ex))) with ex in * by lia.
rewrite Z.sub_diag, bpow_0, Rmult_1_r in Hr.
apply IZR_near in Hr. subst m2. exact Hb.
Qed.

(** [binary_round_aux] never exceeds [rnd_bound]. *)
Lemma binary_round_aux_bound (s : bool) (mx ex : Z) (lx : location) (x : R) :
(0 <= mx)%Z -> rec_in (shr_record_of_loc mx lx) x ->
lx = loc_Exact \/ (ex <= fexp prec emax (Zdigits2 mx + ex))%Z ->
bounded_by s (binary_round_aux prec emax s mx ex lx) (rnd_bound (x * bpow ex)).
Proof.
intros Hm Hx Hl.
assert (Hx0 : IZR mx <= x) by (apply rec_in_lower in Hx;
  destruct lx as [| []]; exact Hx).
assert (H0 : 0 <= IZR mx) by (apply IZR_le; exact Hm).
pose proof (bpow_pos ex) as Hpe. pose proof (bpow_pos (-53)) as Hp53.
pose proof (bpow_pos (-1075)) as Hp1075.
assert (HX : 0 <= x * bpow ex) by (apply Rmult_le_pos; lra).
assert (HXe : 0 <= x * bpow ex * bpow (-53)) by (apply Rmult_le_pos; lra).
destruct (Z_lt_le_dec (fexp prec emax (Zdigits2 mx + ex)) ex) as [Hlt | Hge].
- destruct Hl as [-> | Hl]; [| lia].
  change (x = IZR mx) in Hx. subst x.
  eapply bounded_by_le; [| apply binary_round_aux_exact; [exact Hm | lia]].
  unfold rnd_bound. lra.
- destruct (binary_round_aux_in s mx ex lx x Hm Hx) as (m2 & Hm2 & Hr & Hb).
  replace (Z.max ex (fexp prec emax (Zdigits2 mx + ex)))
    with (fexp prec emax (Zdigits2 mx + ex)) in * by lia.
  set (e1 := fexp prec emax (Zdigits2 mx + ex)) in *.
  eapply bounded_by_le; [| exact Hb].
  apply Rabs_le_inv in Hr. pose proof (bpow_pos e1) as Hp1.
  assert (Hy : x * bpow (ex - e1) * bpow e1 = x * bpow ex).
  { rewrite Rmult_assoc, <- bpow_add. do 2 f_equal. lia. }
  assert (He1 : bpow e1 / 2 <= x * bpow ex * bpow (-53) + bpow (-1075)).
  { subst e1. rewrite fexp_eq in *.
    destruct (Z_le_dec (Zdigits2 mx + ex - 53) (-1074)) as [Hs | Hs].
    - rewrite Z.max_r by lia. rewrite <- bpow_pred.
      change (-1074 - 1)%Z with (-1075)%Z. nra.
    - rewrite Z.max_l in * by lia.
      destruct mx as [| p | p]; [cbn [Zdigits2] in *; lia | | lia].
      cbn [Zdigits2] in *. destruct (digits2_bpow p) as [Hd _].
      replace (Z.pos (digits2_pos p) + ex - 53)%Z
        with ((Z.pos (digits2_pos p) - 1) + ex + -53 + 1)%Z by lia.
      rewrite bpow_succ, !bpow_add.
      set (d := bpow (Z.pos (digits2_pos p) - 1)) in *.
      assert (0 < d) by apply bpow_pos.
      assert (d * bpow ex <= x * bpow ex) by nra.
      nra. }
  unfold rnd_bound. nra.
Qed.

Lemma fmul_bound (sx sy : bool) (mx my : positive) (ex ey : Z) :
bounded_by (xorb sx sy)
  (SFmul prec emax (S754_finite sx mx ex) (S754_finite sy my ey))
  (rnd_bound (IZR (Zpos mx) * bpow ex * (IZR (Zpos my) * bpow ey))).
Proof.
cbn [SFmul].
replace (IZR (Zpos mx) * bpow ex * (IZR (Zpos my) * bpow ey))
  with (IZR (Zpos (mx * my)) * bpow (ex + ey))
  by (rewrite Pos2Z.inj_mul, mult_IZR, bpow_add; ring).
apply binary_round_aux_bound; [lia | reflexivity | left; reflexivity].
Qed.

(** The location that the division computes from the remainder. *)
Lemma new_location_in (my r q : Z) :
(0 < my)%Z -> (0 <= r < my)%Z ->
rec_in (shr_record_of_loc q (new_location my r)) (IZR q + IZR r / IZR my).
Proof.
intros Hmy Hr.
assert (H0 : 0 < IZR my) by (apply IZR_lt; lia).
assert (Ht : IZR r / IZR my * IZR my = IZR r) by (field; lra).
set (t := IZR r / IZR my) in *.
assert (Hr0 : 0 <= IZR r) by (apply IZR_le; lia).
unfold new_location.
destruct (Z.even my) eqn:Ev;
  unfold new_location_even, new_location_odd;
  (destruct (Z.eqb_spec r 0) as [-> | Hne];
   [assert (t = 0) by nra; unfold rec_in; cbn; lra |]);
  assert (Hr1 : 0 < IZR r) by (apply IZR_lt; lia).
- destruct (Z.compare_spec (2 * r) my) as [He | Hl | Hg];
    unfold rec_in; cbn.
  + apply (f_equal IZR) in He. rewrite mult_IZR in He. nra.
  + apply IZR_lt in Hl. rewrite mult_IZR in Hl. nra.
  + apply IZR_lt in Hg. rewrite mult_IZR in Hg.
    assert (IZR r < IZR my) by (apply IZR_lt; lia). nra.
- rewrite <- Z.negb_odd in Ev. apply negb_false_iff in Ev.
  apply Z.odd_spec in Ev as [k Hk].
  destruct (Z.compare_spec (2 * r + 1) my) as [He | Hl | Hg];
    unfold rec_in; cbn.
  + assert (Hl : (2 * r < my)%Z) by lia.
    apply IZR_lt in Hl. rewrite mult_IZR in Hl. nra.
  + assert (Hl' : (2 * r < my)%Z) by lia.
    apply IZR_lt in Hl'. rewrite mult_IZR in Hl'. nra.
  + assert (Hg' : (my < 2 * r)%Z) by lia.
    apply IZR_lt in Hg'. rewrite mult_IZR in Hg'.
    assert (IZR r < IZR my) by (apply IZR_lt; lia). nra.
Qed.

(** The quotient that the division computes has at least 53 digits. *)
Lemma div_digits (mx my : positive) (s : Z) :
(0 <= s)%Z ->
(53 + Zpos (digits2_pos my) - Zpos (digits2_pos mx) <= s)%Z ->
(53 <= Zdigits2 (Zpos mx * 2 ^ s / Zpos my))%Z.
Proof.
intros Hs Hd.
destruct (digits2_pos_bounds mx) as [Hx1 _].
destruct (digits2_pos_bounds my) as [_ Hy2].
set (d1 := Zpos (digits2_pos mx)) in *. set (d2 := Zpos (digits2_pos my)) in *.
assert (Hd1 : (1 <= d1)%Z) by (subst d1; lia).
assert (H1 : (2 ^ (52 + d2) <= 2 ^ (d1 - 1 + s))%Z)
  by (apply Z.pow_le_mono_r; lia).
rewrite !Z.pow_add_r in H1 by lia.
assert (Hp : (0 < 2 ^ s)%Z) by (apply Z.pow_pos_nonneg; lia).
assert (Hp52 : (0 < 2 ^ 52)%Z) by (apply Z.pow_pos_nonneg; lia).
assert (Hq : (2 ^ 52 <= Zpos mx * 2 ^ s / Zpos my)%Z).
{ apply Z.div_le_lower_bound; [lia |]. nia. }
destruct (Zpos mx * 2 ^ s / Zpos my)%Z as [| q | q] eqn:Eq; try lia.
cbn [Zdigits2]. destruct (digits2_pos_bounds q) as [_ Hq2].
assert (H52 : (2 ^ 52 < 2 ^ Zpos (digits2_pos q))%Z) by lia.
apply Z.pow_lt_mono_r_iff in H52; lia.
Qed.

Lemma bpow_neg (e : Z) : bpow (- e) = / bpow e.
Proof. apply powerRZ_neg'. Qed.

Lemma fdiv_bound (sx sy : bool) (mx my : positive) (ex ey : Z) :
bounded_by (xorb sx sy)
  (SFdiv prec emax (S754_finite sx mx ex) (S754_finite sy my ey))
  (rnd_bound (IZR (Zpos mx) * bpow ex / (IZR (Zpos my) * bpow ey))).
Proof.
cbn [SFdiv]. unfold SFdiv_core_binary. cbn [Zdigits2].
set (d1 := Zpos (digits2_pos mx)). set (d2 := Zpos (digits2_pos my)).
set (e' := Z.min (fexp prec emax (d1 + ex - (d2 + ey))) (ex - ey)).
set (s := (ex - ey - e')%Z).
assert (Hs : (0 <= s)%Z) by (subst s e'; lia).
set (m' := match s with
           | Zpos _ => Z.shiftl (Zpos mx) s
           | Z0 => Zpos mx
           | Zneg _ => 0%Z
           end).
assert (Hm' : m' = (Zpos mx * 2 ^ s)%Z).
{ subst m'. destruct s as [| p | p]; [lia | | lia].
  apply Z.shiftl_mul_pow2. lia. }
pose proof (Z_div_mod m' (Zpos my) ltac:(lia)) as Hdm.
assert (Hqd : fst (Z.div_eucl m' (Zpos my)) = (m' / Zpos my)%Z)
  by (unfold Z.div; destruct (Z.div_eucl m' (Zpos my)); reflexivity).
destruct (Z.div_eucl m' (Zpos my)) as [q r]. destruct Hdm as [Hq Hr].
cbn [fst] in Hqd.
assert (Hp : (0 < 2 ^ s)%Z) by (apply Z.pow_pos_nonneg; lia).
assert (Hq0 : (0 <= q)%Z) by nia.
assert (H0 : 0 < IZR (Zpos my)) by (apply IZR_lt; lia).
pose proof (bpow_pos ey) as Hpey.
assert (Hx : (IZR q + IZR r / IZR (Zpos my)) * bpow e'
             = IZR (Zpos mx) * bpow ex / (IZR (Zpos my) * bpow ey)).
{ replace (IZR q + IZR r / IZR (Zpos my)) with (IZR m' / IZR (Zpos my))
    by (rewrite Hq, plus_IZR, mult_IZR; field; lra).
  rewrite Hm', mult_IZR, bpow_IZR by lia.
  assert (Hb : bpow ex = bpow s * bpow e' * bpow ey)
    by (rewrite <- !bpow_add; f_equal; subst s; lia).
  rewrite Hb. field. split; lra. }
rewrite <- Hx.
apply binary_round_aux_bound;
  [exact Hq0 | apply new_location_in; lia | right].
rewrite fexp_eq. destruct (Z_le_dec e' (-1074)) as [He | He]; [lia |].
assert (53 <= Zdigits2 q)%Z; [| lia].
rewrite Hqd, Hm'. apply div_digits; [exact Hs |].
subst s e'. rewrite fexp_eq in *. lia.
Qed.

(** Shifting a mantissa left. *)
Lemma pos_iter_xO (p d : positive) :
Zpos (Pos.iter xO p d) = (Zpos p * 2 ^ Zpos d)%Z
/\ Zpos (digits2_pos (Pos.iter xO p d))
   = (Zpos (digits2_pos p) + Zpos d)%Z.
Proof.
induction d as [| d IH] using Pos.peano_ind.
- cbn [Pos.iter digits2_pos]. split; lia.
- rewrite Pos.iter_succ. destruct IH as [IH1 IH2].
  cbn [digits2_pos]. rewrite !Pos2Z.inj_succ, Pos2Z.inj_xO, IH1, IH2.
  rewrite Z.pow_succ_r by lia. split; lia.
Qed.

Lemma shl_align_spec (mx mz : positive) (ex ex' ez : Z) :
shl_align mx ex ex' = (mz, ez) ->
IZR (Zpos mz) * bpow ez = IZR (Zpos mx) * bpow ex
/\ (Zpos (digits2_pos mz) + ez = Zpos (digits2_pos mx) + ex)%Z
/\ (ez = Z.min ex ex')%Z.
Proof.
unfold shl_align. destruct (ex' - ex)%Z as [| d | d] eqn:E;
  intros [= <- <-]; try (repeat split; lia).
destruct (pos_iter_xO mx d) as [H1 H2]. rewrite H1, H2.
rewrite mult_IZR, bpow_IZR by lia.
assert (Hb : bpow ex = bpow (Zpos d) * bpow ex')
  by (rewrite <- bpow_add; f_equal; lia).
rewrite Hb. repeat split; [ring | lia | lia].
Qed.

Lemma bpow_53 : bpow 53 = 9007199254740992.
Proof. rewrite <- bpow_IZR by lia. reflexivity. Qed.

Lemma bpow_m53 : bpow (-53) = / 9007199254740992.
Proof. change (-53)%Z with (Z.opp 53). rewrite bpow_neg, bpow_53. reflexivity. Qed.

(** [float(n)] never exceeds [n] when [n] has at most 53 bits. *)
Lemma binary_normalize_bound (n : Z) :
(0 <= n < 2 ^ 53)%Z ->
bounded_by false (binary_normalize prec emax n 0 false) (IZR n).
Proof.
intros Hn. destruct n as [| p | p]; [exact I | | lia].
cbn [binary_normalize]. unfold binary_round.
destruct (shl_align p 0 _) as [mz ez] eqn:E.
apply shl_align_spec in E as (Hv & Hd & He).
rewrite bpow_0, Rmult_1_r in Hv. rewrite <- Hv.
assert (Hp : (Zpos (digits2_pos p) <= 53)%Z).
{ destruct (digits2_pos_bounds p) as [Hp _].
  destruct (Z_le_dec (Zpos (digits2_pos p)) 53) as [? | Hgt]; [assumption |].
  assert (2 ^ 53 <= 2 ^ (Zpos (digits2_pos p) - 1))%Z
    by (apply Z.pow_le_mono_r; lia). lia. }
apply binary_round_aux_exact; [lia |].
cbn [Zdigits2]. rewrite Hd, He, !fexp_eq. lia.
Qed.

(** [int(x)] never exceeds the magnitude of a non-negative [x]. *)
Lemma int_of_float_value (m : positive) (e : Z) :
let k := match e with
         | Z0 => Zpos m
         | Zpos j => (Zpos m * 2 ^ Zpos j)%Z
         | Zneg j => (Zpos m / 2 ^ Zpos j)%Z
         end in
(0 <= k)%Z /\ IZR k <= IZR (Zpos m) * bpow e.
Proof.
destruct e as [| j | j]; cbn zeta.
- rewrite bpow_0. split; [lia | lra].
- assert (0 < 2 ^ Zpos j)%Z by (apply Z.pow_pos_nonneg; lia).
  rewrite mult_IZR, bpow_IZR by lia. split; [lia | lra].
- assert (Hp : (0 < 2 ^ Zpos j)%Z) by (apply Z.pow_pos_nonneg; lia).
  split; [apply Z.div_pos; lia |].
  pose proof (Z.mul_div_le (Zpos m) (2 ^ Zpos j) Hp) as Hle.
  apply IZR_le in Hle. rewrite mult_IZR, bpow_IZR in Hle by lia.
  change (Zneg j) with (- Zpos j)%Z. rewrite bpow_neg.
  pose proof (bpow_pos (Zpos j)) as Hb.
  apply Rmult_le_reg_r with (r := bpow (Zpos j)); [exact Hb |].
  rewrite Rmult_assoc, Rinv_l by lra. lra.
Qed.

Lemma bpow_972 : bpow 53 < bpow (emax - prec + 1).
Proof. apply bpow_lt. reflexivity. Qed.

Lemma rnd_bound_le (X Y : R) : X <= Y -> rnd_bound X <= rnd_bound Y.
Proof.
intros H. unfold rnd_bound. pose proof (bpow_pos (-53)). nra.
Qed.

Lemma float_of_int_bound (n : Z) :
(0 <= n < 2 ^ 53)%Z ->
exists f, float_of_int n = inr f /\ bounded_by false f (IZR n).
Proof.
intros Hn. pose proof (binary_normalize_bound n Hn) as Hb.
unfold float_of_int.
destruct (binary_normalize prec emax n 0 false) as [s | s | | s m e];
  try (eexists; split; [reflexivity | exact Hb]).
- exfalso. destruct Hb as [_ Hb]. pose proof bpow_972 as H972.
  assert (IZR n < bpow 53)
    by (rewrite <- bpow_IZR by lia; apply IZR_lt; lia).
  lra.
Qed.

Lemma int_of_float_bound (f : float) (B : R) :
bounded_by false f B -> 0 <= B -> B < bpow (emax - prec + 1) ->
exists k, int_of_float f = inr k /\ (0 <= k)%Z /\ IZR k <= B.
Proof.
intros Hb HB0 HB. destruct f as [s | s | | s m e]; cbn [bounded_by] in Hb.
- exists 0%Z. repeat split; [lia | exact HB0].
- lra.
- destruct Hb.
- destruct Hb as [-> Hb]. cbn [int_of_float].
  destruct (int_of_float_value m e) as [Hk0 Hk].
  eexists. split; [reflexivity |]. split; [exact Hk0 | lra].
Qed.

(** The product of two non-negative floats. *)
Lemma fmul_bounded (x y : float) (Bx By : R) :
bounded_by false x Bx -> bounded_by false y By ->
Bx < bpow (emax - prec + 1) -> By < bpow (emax - prec + 1) ->
bounded_by false (fmul x y) (rnd_bound (Bx * By)).
Proof.
intros Hx Hy HBx HBy. unfold fmul.
destruct x as [sx | sx | | sx mx ex], y as [sy | sy | | sy my ey];
  cbn [bounded_by] in Hx, Hy; try tauto; try lra;
  try (destruct Hx as [-> Hx]); try (destruct Hy as [-> Hy]);
  try exact I.
eapply bounded_by_le; [| apply (fmul_bound false false)].
apply rnd_bound_le.
assert (0 < IZR (Zpos mx) * bpow ex)
  by (apply Rmult_lt_0_compat; [apply IZR_lt; lia | apply bpow_pos]).
assert (0 < IZR (Zpos my) * bpow ey)
  by (apply Rmult_lt_0_compat; [apply IZR_lt; lia | apply bpow_pos]).
nra.
Qed.

(** The quotient of two non-zero ints. *)
Lemma fdiv_raw_bound (a b : Z) :
a <> 0%Z -> b <> 0%Z ->
bounded_by (xorb (a <? 0)%Z (b <? 0)%Z) (fdiv (raw a) (raw b))
  (rnd_bound (IZR (Z.abs a) / IZR (Z.abs b))).
Proof.
intros Ha Hb. unfold fdiv.
destruct a as [| a | a], b as [| b | b]; try congruence;
  cbn [raw Z.ltb Z.compare Z.abs];
  (eapply bounded_by_le; [| apply fdiv_bound]);
  rewrite bpow_0, !Rmult_1_r; apply Rle_refl.
Qed.

Lemma int_truediv_bound (a b : Z) (q : float) :
(0 < a)%Z -> (0 < b)%Z -> int_truediv a b = inr q ->
bounded_by false q (rnd_bound (IZR a / IZR b)).
Proof.
intros Ha Hb. unfold int_truediv.
destruct (Z.eqb_spec b 0) as [-> | _]; [lia |].
pose proof (fdiv_raw_bound a b ltac:(lia) ltac:(lia)) as H.
replace (a <? 0)%Z with false in H by (symmetry; apply Z.ltb_ge; lia).
replace (b <? 0)%Z with false in H by (symmetry; apply Z.ltb_ge; lia).
rewrite !Z.abs_eq in H by lia.
destruct a as [| a | a]; [lia | | lia].
destruct (fdiv _ _); [| discriminate | |]; intros [= <-]; exact H.
Qed.

(** The quotient of two ints is a double when its magnitude allows. *)
Lemma int_truediv_inr (a b : Z) :
b <> 0%Z ->
rnd_bound (IZR (Z.abs a) / IZR (Z.abs b)) < bpow (emax - prec + 1) ->
exists q, int_truediv a b = inr q.
Proof.
intros Hb HB. unfold int_truediv.
destruct (Z.eqb_spec b 0) as [-> | _]; [congruence |].
destruct (Z.eq_dec a 0%Z) as [-> | Ha]; [eexists; reflexivity |].
pose proof (fdiv_raw_bound a b Ha Hb) as H.
destruct a as [| a | a]; [congruence | |];
  (destruct (fdiv _ _); [eexists; reflexivity | | destruct H
                        | eexists; reflexivity]);
  destruct H as [_ H]; lra.
Qed.

(** A double in [[0, 1)] is zero or at most [1 - 2 ^ -53]. *)
Lemma below_one (p : float) :
valid_binary prec emax p = true ->
SFleb (S754_zero false) p = true -> SFltb p (const 1) = true ->
bounded_by false p (1 - bpow (-53)).
Proof.
eval_const 1%Z. intros Hv H0 H1.
destruct p as [s | s | | s m e]; cbn [bounded_by].
- exact I.
- destruct s; discriminate.
- discriminate.
- destruct s; [discriminate |]. split; [reflexivity |].
  unfold SFltb, SFcompare in H1.
  remember 4503599627370496%positive as c eqn:Hcst.
  change (PosDef.Pos.compare_cont Eq m c) with (Pos.compare m c) in H1.
  cbn [valid_binary] in Hv. unfold bounded, canonical_mantissa in Hv.
  apply andb_true_iff in Hv as [Hc _]. apply Z.eqb_eq in Hc.
  rewrite fexp_eq in Hc.
  destruct (digits2_pos_bounds m) as [Hd _].
  assert (Hm : (Zpos m < 2 ^ 53)%Z).
  { destruct (digits2_pos_bounds m) as [_ Hd2].
    assert (2 ^ Zpos (digits2_pos m) <= 2 ^ 53)%Z
      by (apply Z.pow_le_mono_r; lia). lia. }
  rewrite bpow_m53.
  assert (Hm' : IZR (Zpos m) <= 9007199254740992 - 1).
  { replace (9007199254740992 - 1) with (IZR (2 ^ 53 - 1))
      by (rewrite minus_IZR; reflexivity).
    apply IZR_le. lia. }
  pose proof (bpow_pos e) as Hpe.
  destruct (Z.compare_spec e (-52)) as [He | He | He].
  + subst e.
    destruct (Pos.compare_spec m c) as [? | Hlt | ?]; try discriminate.
    apply Pos2Z.pos_lt_pos in Hlt. rewrite Hcst in Hlt.
    assert (Hle : (Zpos m <= 4503599627370495)%Z) by (clear - Hlt; lia).
    apply IZR_le in Hle.
    assert (Hb : bpow (-52) = 2 * / 9007199254740992).
    { change (-52)%Z with (-53 + 1)%Z. rewrite bpow_succ, bpow_m53.
      reflexivity. }
    rewrite Hb. lra.
  + pose proof (bpow_le e (-53) ltac:(lia)) as Hle. rewrite bpow_m53 in Hle.
    assert (0 <= IZR (Zpos m)) by (apply IZR_le; lia).
    nra.
  + discriminate.
Qed.

End FloatBounds.

Import FloatBounds.

(** ** Exact conversions *)

Section ExactConversions.
Local Open Scope R_scope.

(** A shift record that brackets an integer holds it exactly. *)
Lemma rec_in_integer (mrs : shr_record) (k : Z) :
  rec_in mrs (IZR k) -> mrs = Build_shr_record k false false.
Proof.
  destruct mrs as [m r s]. unfold rec_in. cbn [shr_m shr_r shr_s].
  destruct r, s; intros H.
  - exfalso. destruct H as [H1 H2].
    assert (m < k)%Z by (apply lt_IZR; lra).
    assert (k < m + 1)%Z by (apply lt_IZR; rewrite plus_IZR; lra). lia.
  - exfalso.
    assert (m < k)%Z by (apply lt_IZR; lra).
    assert (k < m + 1)%Z by (apply lt_IZR; rewrite plus_IZR; lra). lia.
  - exfalso. destruct H as [H1 H2].
    assert (m < k)%Z by (apply lt_IZR; lra).
    assert (k < m + 1)%Z by (apply lt_IZR; rewrite plus_IZR; lra). lia.
  - apply eq_IZR in H. by subst.
Qed.

(** A mantissa of 53 bits with an exponent in range is not rounded. *)
Lemma binary_round_aux_canonical (s : bool) (m : positive) (e : Z) :
  Zpos (digits2_pos m) = 53%Z -> (-1074 <= e <= 971)%Z ->
  binary_round_aux prec emax s (Zpos m) e loc_Exact = S754_finite s m e.
Proof.
  intros Hd He. unfold binary_round_aux, shr_fexp.
  cbn [Zdigits2]. rewrite Hd, fexp_eq.
  replace (Z.max (53 + e - 53) (-1074) - e)%Z with 0%Z by lia.
  cbn [shr shr_record_of_loc shr_m loc_of_shr_record round_nearest_even
       Zdigits2].
  rewrite Hd, fexp_eq.
  replace (Z.max (53 + e - 53) (-1074) - e)%Z with 0%Z by lia.
  cbn [shr shr_record_of_loc shr_m].
  replace (e <=? emax - prec)%Z with true
    by (symmetry; apply Z.leb_le; unfold emax, prec; lia).
  reflexivity.
Qed.

(** [float(n)] is exact for an int of at most 53 bits. *)
Lemma float_of_int_exact (n : Z) :
  (0 < n < 2 ^ 53)%Z ->
  exists m e,
    float_of_int n = inr (S754_finite false m e)
    /\ Zpos (digits2_pos m) = 53%Z /\ (-52 <= e <= 0)%Z
    /\ Zpos m = (n * 2 ^ (- e))%Z.
Proof.
  intros Hn. destruct n as [| p | p]; try lia.
  unfold float_of_int. cbn [binary_normalize]. unfold binary_round.
  destruct (shl_align p 0 _) as [mz ez] eqn:E.
  apply shl_align_spec in E as (Hv & Hd & He).
  rewrite bpow_0, Rmult_1_r in Hv.
  assert (Hp : (1 <= Zpos (digits2_pos p) <= 53)%Z).
  { split; [lia |]. destruct (digits2_pos_bounds p) as [Hp _].
    destruct (Z_le_dec (Zpos (digits2_pos p)) 53) as [? | Hgt]; [assumption |].
    assert (2 ^ 53 <= 2 ^ (Zpos (digits2_pos p) - 1))%Z
      by (apply Z.pow_le_mono_r; lia). lia. }
  rewrite fexp_eq in He.
  assert (Hez : (-52 <= ez <= 0)%Z) by lia.
  assert (Hdz : Zpos (digits2_pos mz) = 53%Z) by lia.
  rewrite binary_round_aux_canonical by (assumption || lia).
  exists mz, ez. repeat split; try assumption; try lia.
  apply eq_IZR. rewrite mult_IZR, bpow_IZR by lia.
  rewrite <- Hv, Rmult_assoc, <- bpow_add.
  replace (ez + - ez)%Z with 0%Z by lia. rewrite bpow_0. ring.
Qed.

(** Multiplying a normal double by 1.0 leaves it unchanged. *)
Lemma fmul_one (m : positive) (e : Z) :
  Zpos (digits2_pos m) = 53%Z -> (-1022 <= e <= 971)%Z ->
  fmul (S754_finite false m e) (const 1) = S754_finite false m e.
Proof.
  eval_const 1%Z. intros Hd He. unfold fmul. cbn [SFmul xorb].
  remember 4503599627370496%positive as c eqn:Hc.
  assert (Hc52 : Zpos c = (2 ^ 52)%Z) by (subst c; reflexivity).
  clear Hc.
  destruct (pos_iter_xO m 52) as [Hi1 Hi2].
  assert (Hmc : (m * c)%positive = Pos.iter xO m 52).
  { apply Pos2Z.inj. rewrite Hi1, Pos2Z.inj_mul, Hc52. reflexivity. }
  rewrite Hmc. clear Hmc.
  set (mc := Pos.iter xO m 52) in *.
  unfold binary_round_aux, shr_fexp. cbn [Zdigits2].
  rewrite Hi2, Hd, fexp_eq.
  replace (Z.max (53 + 52 + (e + -52) - 53) (-1074) - (e + -52))%Z
    with 52%Z by lia.
  destruct (shr (shr_record_of_loc (Zpos mc) loc_Exact) (e + -52) 52)
    as [mrs' e'] eqn:E.
  apply shr_in with (x := IZR (Zpos mc)) in E as (He' & Hm' & Hx');
    [| cbn; lia | reflexivity].
  assert (e' = e) as -> by lia.
  assert (Hval : IZR (Zpos mc) * bpow (e + -52 - e) = IZR (Zpos m)).
  { rewrite Hi1, mult_IZR, bpow_IZR by lia.
    rewrite Rmult_assoc, <- bpow_add.
    replace (52 + (e + -52 - e))%Z with 0%Z by lia.
    rewrite bpow_0. ring. }
  rewrite Hval in Hx'. apply rec_in_integer in Hx'. subst mrs'.
  cbn [shr_m shr_r shr_s loc_of_shr_record round_nearest_even Zdigits2].
  rewrite Hd, fexp_eq.
  replace (Z.max (53 + e - 53) (-1074) - e)%Z with 0%Z by lia.
  cbn [shr shr_record_of_loc shr_m].
  replace (e <=? emax - prec)%Z with true
    by (symmetry; apply Z.leb_le; unfold emax, prec; lia).
  reflexivity.
Qed.

End ExactConversions.

Lemma int_of_float_exact (m : positive) (e n : Z) :
  -52 <= e <= 0 -> Zpos m = n * 2 ^ (- e) ->
  int_of_float (S754_finite false m e) = inr n.
Proof.
  intros He Hm. cbn [int_of_float]. destruct e as [| k | k]; [| lia |].
  - cbn in Hm. cbn [ret]. f_equal. lia.
  - change (- Zneg k) with (Zpos k) in Hm. cbn [ret]. f_equal.
    rewrite Hm. apply Z.div_mul.
    assert (0 < 2 ^ Zpos k) by (apply Z.pow_pos_nonneg; lia). lia.
Qed.

(** ** Frame indices *)

(** Position 1.0 gives [total_frames] itself. *)
Lemma frame_number_at_one (total_frames : Z) :
  1 <= total_frames < 2 ^ 53 ->
  frame_number total_frames (const 1) = inr total_frames.
Proof.
  intros Hn. unfold frame_number, int_mul_float.
  destruct (float_of_int_exact total_frames ltac:(lia))
    as (m & e & -> & Hd & He & Hm).
  cbn [mbind result_bind bind mret result_ret ret].
  rewrite fmul_one by (assumption || lia).
  by apply int_of_float_exact.
Qed.

(** C1, as the code has it.  For a video of [total_frames >= 1] frames
    (below [2 ^ 53]) and a position that is a double in [[0, 1)], the frame
    index [int(total_frames * position)] lies in [[0, total_frames - 1]].
    No clamping is applied: position 1.0 gives [total_frames] itself, 100
    for a video of 100 frames, one past the last frame; when the read at
    that index fails and the frame rate is not 0, the pass of the loop
    for position 1.0 leaves the list of frames as it was, so the position
    is skipped. *)
Theorem frame_number_in_range (total_frames : Z) (position : float) :
  1 <= total_frames < 2 ^ 53 ->
  valid_binary prec emax position = true ->
  SFleb (S754_zero false) position = true ->
  SFltb position (const 1) = true ->
  (exists frame,
      frame_number total_frames position = inr frame
      /\ 0 <= frame <= total_frames - 1)
  /\ frame_number 100 (const 1) = inr 100
  /\ frame_number total_frames (const 1) = inr total_frames
  /\ forall (Image_resize : Image.t -> Z -> Z -> result Image.t)
        (cap : Capture.t) (resize_max : Z) (frames : list (Image.t * float)),
        is_zero (Capture.fps cap) = false ->
        Capture.read cap total_frames = None ->
        extract_frame Image_resize cap total_frames resize_max frames
          (const 1) = inr frames.
Proof.
  intros Hn Hv H0 H1.
  pose proof (frame_number_at_one total_frames Hn) as Hone.
  refine (conj _ (conj _ (conj Hone _))); [| vm_compute; reflexivity |].
  2: { intros Image_resize cap resize_max frames Hfps Hread.
       unfold extract_frame. rewrite Hone.
       cbn [mbind result_bind bind]. unfold int_div_float.
       destruct (float_of_int_bound total_frames ltac:(lia)) as (f & -> & _).
       cbn [mbind result_bind bind]. rewrite Hfps.
       cbn [mbind result_bind bind ret]. rewrite Hread. reflexivity. }
  unfold frame_number, int_mul_float.
  destruct (float_of_int_bound total_frames ltac:(lia)) as (f & -> & Hf).
  pose proof (below_one position Hv H0 H1) as Hp.
  assert (Hn53 : (IZR total_frames < bpow 53)%R)
    by (rewrite <- bpow_IZR by lia; apply IZR_lt; lia).
  assert (Hn1 : (1 <= IZR total_frames)%R) by (apply IZR_le; lia).
  pose proof bpow_972 as H972. pose proof (bpow_pos (-53)) as Hu.
  pose proof bpow_53 as H53.
  assert (Hu1 : (bpow (-53) < 1)%R)
    by (change 1%R with (bpow 0); apply bpow_lt; lia).
  assert (Heta : (bpow (-1075) < bpow (-53) * bpow (-53))%R)
    by (rewrite <- bpow_add; apply bpow_lt; lia).
  pose proof (bpow_pos (-1075)) as Heta0.
  pose proof (fmul_bounded f position _ _ Hf Hp ltac:(lra) ltac:(lra)) as Hb.
  cbn [mbind result_bind bind mret result_ret ret].
  assert (Hsq : (bpow (-53) * bpow (-53)
                 <= IZR total_frames * (bpow (-53) * bpow (-53)))%R) by nra.
  assert (HBe : (rnd_bound (IZR total_frames * (1 - bpow (-53)))
                 = IZR total_frames
                   - IZR total_frames * (bpow (-53) * bpow (-53))
                   + bpow (-1075))%R) by (unfold rnd_bound; ring).
  assert (HB : (rnd_bound (IZR total_frames * (1 - bpow (-53)))
                < IZR total_frames)%R) by lra.
  assert (HB0 : (0 <= rnd_bound (IZR total_frames * (1 - bpow (-53))))%R).
  { rewrite HBe.
    assert (bpow (-53) * bpow (-53) <= 1)%R by nra.
    assert (IZR total_frames * (bpow (-53) * bpow (-53))
            <= IZR total_frames * 1)%R
      by (apply Rmult_le_compat_l; lra).
    lra. }
  destruct (int_of_float_bound _ _ Hb HB0 ltac:(lra)) as (k & -> & Hk0 & Hk).
  exists k. split; [reflexivity |].
  assert (k < total_frames) by (apply lt_IZR; lra). lia.
Qed.

Lemma frame_number_witness :
  (1 <= 100 < 2 ^ 53
   /\ valid_binary prec emax (literal 75 2) = true
   /\ SFleb (S754_zero false) (literal 75 2) = true
   /\ SFltb (literal 75 2) (const 1) = true)
  /\ (exists frame,
         frame_number 100 (literal 75 2) = inr frame
         /\ 0 <= frame <= 100 - 1)
  /\ (is_zero (Capture.fps ended_capture) = false
      /\ Capture.read ended_capture 100 = None)
  /\ extract_frame pil_resize ended_capture 100 720 [] (const 1) = inr [].
Proof.
  pose proof (frame_number_in_range 100 (literal 75 2)) as H.
  assert (H1 : 1 <= 100 < 2 ^ 53) by (split; [lia | reflexivity]).
  assert (H2 : valid_binary prec emax (literal 75 2) = true)
    by (vm_compute; reflexivity).
  assert (H3 : SFleb (S754_zero false) (literal 75 2) = true)
    by (vm_compute; reflexivity).
  assert (H4 : SFltb (literal 75 2) (const 1) = true)
    by (vm_compute; reflexivity).
  assert (H5 : is_zero (Capture.fps ended_capture) = false)
    by (vm_compute; reflexivity).
  assert (H6 : Capture.read ended_capture 100 = None) by reflexivity.
  destruct (H H1 H2 H3 H4) as (Hin & _ & _ & Hskip).
  split; [auto |]. split; [exact Hin |]. split; [auto |].
  exact (Hskip pil_resize ended_capture 720 [] H5 H6).
Defined.

(** The claim of C1 fails at position 1.0, a valid double in [[0, 1]]: the
    index of a video of 100 frames is 100, above 99. *)
Lemma frame_number_at_one_out_of_range :
  valid_binary prec emax (const 1) = true
  /\ SFleb (S754_zero false) (const 1) = true
  /\ SFleb (const 1) (const 1) = true
  /\ frame_number 100 (const 1) = inr 100
  /\ ~ (100 <= 100 - 1).
Proof. repeat split; try (vm_compute; reflexivity). lia. Qed.

(** ** Resizing *)

Section ScaleBound.
Local Open Scope R_scope.

(** The scaled side never exceeds [max_dimension]. *)
Lemma truncated_scale_le (other larger max_dimension k : Z) :
  (0 <= other <= larger)%Z -> (larger < 2 ^ 52)%Z ->
  (1 <= max_dimension < larger)%Z ->
  truncated_scale other larger max_dimension = inr k ->
  (0 <= k <= max_dimension)%Z.
Proof.
  intros Ho Hl Hm. unfold truncated_scale, int_mul_float.
  destruct (int_truediv max_dimension larger) as [e | ratio] eqn:Er;
    [discriminate |].
  apply int_truediv_bound in Er; [| lia | lia].
  assert (H253 : (2 ^ 53 = 9007199254740992)%Z) by reflexivity.
  assert (H252 : (2 ^ 52 = 4503599627370496)%Z) by reflexivity.
  destruct (float_of_int_bound other) as (f & -> & Hf); [lia |].
  cbn [mbind result_bind bind mret result_ret ret].
  set (m := IZR max_dimension) in *. set (l := IZR larger) in *.
  set (o := IZR other) in *.
  assert (Hm1 : 1 <= m) by (apply IZR_le; lia).
  assert (Hm52 : m <= 4503599627370495) by (apply IZR_le; lia).
  assert (Hl0 : 0 < l) by (apply IZR_lt; lia).
  assert (Ho0 : 0 <= o) by (apply IZR_le; lia).
  assert (Hol : o <= l) by (apply IZR_le; lia).
  assert (Ho53 : o <= 9007199254740992) by (apply IZR_le; lia).
  pose proof bpow_m53 as Hu. set (u := bpow (-53)) in *.
  assert (Heta : bpow (-1075) < u * u * u).
  { subst u. rewrite <- !bpow_add. apply bpow_lt. lia. }
  pose proof (bpow_pos (-1075)) as Heta0. set (eta := bpow (-1075)) in *.
  assert (Hu3 : u * u * u = / 9007199254740992 * / 9007199254740992
                            * / 9007199254740992) by (rewrite Hu; ring).
  pose proof bpow_972 as H972. pose proof bpow_53 as H53.
  assert (Ht : m / l * l = m) by (field; lra).
  set (t := m / l) in *.
  assert (Ht0 : 0 <= t) by (subst t; apply Rle_mult_inv_pos; lra).
  assert (Hl1 : 1 <= l) by (apply IZR_le; lia).
  assert (Hot : o * t <= m).
  { assert (o * t <= l * t) by (apply Rmult_le_compat_r; lra). lra. }
  assert (Ht1 : t <= m).
  { assert (t * 1 <= t * l) by (apply Rmult_le_compat_l; lra). lra. }
  assert (Hu0 : 0 < u) by (rewrite Hu; lra).
  assert (Hoe : o * eta <= 9007199254740992 * (u * u * u)).
  { assert (o * eta <= 9007199254740992 * eta)
      by (apply Rmult_le_compat_r; lra). lra. }
  assert (Hq : rnd_bound t <= m * (1 + u) + eta).
  { unfold rnd_bound. fold u eta.
    assert (t * (1 + u) <= m * (1 + u))
      by (apply Rmult_le_compat_r; lra). lra. }
  assert (Hq0 : 0 <= rnd_bound t).
  { unfold rnd_bound. fold u eta.
    assert (0 <= t * (1 + u)) by (apply Rmult_le_pos; lra). lra. }
  assert (Hmu : m * (1 + u) <= 4503599627370495 * (1 + u))
    by (apply Rmult_le_compat_r; lra).
  pose proof (fmul_bounded f ratio o (rnd_bound t) Hf Er ltac:(lra)
                ltac:(lra)) as Hb.
  assert (Hoq : o * rnd_bound t <= m * (1 + u) + o * eta).
  { unfold rnd_bound. fold u eta.
    replace (o * (t * (1 + u) + eta)) with (o * t * (1 + u) + o * eta)
      by ring.
    assert (o * t * (1 + u) <= m * (1 + u))
      by (apply Rmult_le_compat_r; lra). lra. }
  assert (Hoq0 : 0 <= o * rnd_bound t) by (apply Rmult_le_pos; lra).
  assert (Hexp : (m * (1 + u) + o * eta) * (1 + u)
                 = m + 2 * u * m + u * u * m + o * eta * (1 + u)) by ring.
  assert (Huu : u * u = / 9007199254740992 * / 9007199254740992)
    by (rewrite Hu; ring).
  assert (Huum : u * u * m <= u * u * 4503599627370495)
    by (apply Rmult_le_compat_l; [rewrite Huu |]; lra).
  assert (Hoeu : o * eta * (1 + u)
                 <= 9007199254740992 * (u * u * u) * (1 + u)).
  { apply Rmult_le_compat_r; lra. }
  assert (HB : rnd_bound (o * rnd_bound t) < m + 1).
  { unfold rnd_bound at 1. fold u eta.
    assert (o * rnd_bound t * (1 + u)
            <= (m * (1 + u) + o * eta) * (1 + u))
      by (apply Rmult_le_compat_r; lra).
    assert (2 * u * m <= 2 * u * 4503599627370495)
      by (apply Rmult_le_compat_l; lra).
    rewrite Hu3 in *. rewrite Huu in *. rewrite Hu in *. lra. }
  assert (HB0 : 0 <= rnd_bound (o * rnd_bound t)).
  { unfold rnd_bound at 1. fold u eta.
    assert (0 <= o * rnd_bound t * (1 + u)) by (apply Rmult_le_pos; lra).
    lra. }
  destruct (int_of_float_bound _ _ Hb HB0 ltac:(lra))
    as (k' & -> & Hk0 & Hk).
  intros [= <-]. split; [exact Hk0 |].
  assert (k' < max_dimension + 1)%Z
    by (apply lt_IZR; rewrite plus_IZR; fold m; lra).
  lia.
Qed.

End ScaleBound.

Section ResizeImage.

(** PIL's [Image.resize] is a parameter of the embedding.  What is
    assumed of it: a successful call returns an image of the requested
    size, and succeeds only for a size of at least 1 by 1. *)
Variable Image_resize : Image.t -> Z -> Z -> result Image.t.

Hypothesis Image_resize_size :
  forall image w h resized,
    Image_resize image w h = inr resized ->
    Image.width resized = w /\ Image.height resized = h.

Hypothesis Image_resize_positive :
  forall image w h resized,
    Image_resize image w h = inr resized -> 1 <= w /\ 1 <= h.

(** What [_resize_image] has computed when an actual resize returns. *)
Lemma resize_image_inr (image resized : Image.t) (max_dimension : Z) :
  (Image.width image <=? max_dimension)
  && (Image.height image <=? max_dimension) = false ->
  _resize_image Image_resize image max_dimension = inr resized ->
  1 <= max_dimension
  /\ if Image.height image <? Image.width image
     then Image.width resized = max_dimension
          /\ truncated_scale (Image.height image) (Image.width image)
               max_dimension = inr (Image.height resized)
     else Image.height resized = max_dimension
          /\ truncated_scale (Image.width image) (Image.height image)
               max_dimension = inr (Image.width resized).
Proof.
  intros Hbig. unfold _resize_image, truncated_scale. rewrite Hbig.
  destruct (Image.height image <? Image.width image).
  - destruct (int_truediv _ _) as [e | ratio]; [discriminate |].
    cbn [mbind result_bind bind].
    destruct (int_mul_float _ _) as [e | x]; [discriminate |].
    cbn [mbind result_bind bind].
    destruct (int_of_float x) as [e | k]; [discriminate |].
    cbn [mbind result_bind bind mret result_ret ret fst snd]. intros H.
    destruct (Image_resize_size _ _ _ _ H) as [Hw Hh].
    destruct (Image_resize_positive _ _ _ _ H) as [Hw1 Hh1].
    rewrite Hw, Hh. auto.
  - destruct (int_truediv _ _) as [e | ratio]; [discriminate |].
    cbn [mbind result_bind bind].
    destruct (int_mul_float _ _) as [e | x]; [discriminate |].
    cbn [mbind result_bind bind].
    destruct (int_of_float x) as [e | k]; [discriminate |].
    cbn [mbind result_bind bind mret result_ret ret fst snd]. intros H.
    destruct (Image_resize_size _ _ _ _ H) as [Hw Hh].
    destruct (Image_resize_positive _ _ _ _ H) as [Hw1 Hh1].
    rewrite Hw, Hh. auto.
Qed.

(** A resized image fits in [max_dimension]. *)
Lemma resize_image_fits (image resized : Image.t) (max_dimension : Z) :
  well_sized image ->
  _resize_image Image_resize image max_dimension = inr resized ->
  (Image.width image <=? max_dimension)
  && (Image.height image <=? max_dimension) = false ->
  0 <= Image.width resized <= max_dimension
  /\ 0 <= Image.height resized <= max_dimension.
Proof.
  intros [Hw Hh] H Hbig.
  destruct (resize_image_inr _ _ _ Hbig H) as [Hm Hr].
  apply andb_false_iff in Hbig.
  destruct (Z.ltb_spec (Image.height image) (Image.width image)) as [Hlt | Hge];
    destruct Hr as [-> Hs];
    apply truncated_scale_le in Hs; try lia;
    destruct Hbig as [Hb | Hb]; apply Z.leb_gt in Hb; lia.
Qed.

(** C2, as the code has it.  An image that fits in [max_dimension] is
    returned unchanged.  Otherwise the side that is the larger one (the
    height when both are equal) becomes [max_dimension], the other side
    becomes [int(other * (max_dimension / larger))], the double product
    cut toward zero and not rounded, and the larger dimension of the
    result is [max_dimension]. *)
Theorem resize_image_dimensions (image resized : Image.t)
    (max_dimension : Z) :
  well_sized image ->
  _resize_image Image_resize image max_dimension = inr resized ->
  if (Image.width image <=? max_dimension)
     && (Image.height image <=? max_dimension)
  then resized = image
  else Z.max (Image.width resized) (Image.height resized) = max_dimension
       /\ if Image.height image <? Image.width image
          then Image.width resized = max_dimension
               /\ truncated_scale (Image.height image) (Image.width image)
                    max_dimension = inr (Image.height resized)
          else Image.height resized = max_dimension
               /\ truncated_scale (Image.width image) (Image.height image)
                    max_dimension = inr (Image.width resized).
Proof.
  intros Hwf H.
  destruct ((Image.width image <=? max_dimension)
            && (Image.height image <=? max_dimension)) eqn:Hbig.
  - unfold _resize_image in H. rewrite Hbig in H. by injection H.
  - destruct (resize_image_fits _ _ _ Hwf H Hbig) as [Hw Hh].
    destruct (resize_image_inr _ _ _ Hbig H) as [Hm Hr].
    split; [| exact Hr].
    destruct (Image.height image <? Image.width image);
      destruct Hr as [Hr _]; lia.
Qed.

(** C8.  Resizing is idempotent: an image that fits in [max_dimension]
    is returned unchanged, and resizing the result of a resize again,
    with the same [max_dimension], returns that result (an error of the
    first resize is the error of the two). *)
Theorem resize_image_idempotent (image : Image.t) (max_dimension : Z) :
  well_sized image ->
  ((Image.width image <=? max_dimension)
   && (Image.height image <=? max_dimension) = true ->
   _resize_image Image_resize image max_dimension = inr image)
  /\ (resized ← _resize_image Image_resize image max_dimension;
      _resize_image Image_resize resized max_dimension)
     = _resize_image Image_resize image max_dimension.
Proof.
  intros Hwf.
  assert (Hfit : forall im, (Image.width im <=? max_dimension)
                            && (Image.height im <=? max_dimension) = true ->
                            _resize_image Image_resize im max_dimension
                            = inr im).
  { intros im Him. unfold _resize_image. rewrite Him. reflexivity. }
  split; [apply Hfit |].
  destruct (_resize_image Image_resize image max_dimension)
    as [e | resized] eqn:E; [reflexivity |].
  cbn [mbind result_bind bind]. apply Hfit.
  destruct ((Image.width image <=? max_dimension)
            && (Image.height image <=? max_dimension)) eqn:Hbig.
  - unfold _resize_image in E. rewrite Hbig in E. injection E as <-.
    exact Hbig.
  - destruct (resize_image_fits _ _ _ Hwf E Hbig) as [Hw Hh].
    apply andb_true_iff. split; apply Z.leb_le; lia.
Qed.

End ResizeImage.

(** The model [pil_resize] meets what is assumed of PIL's resize. *)
Lemma pil_resize_size (image : Image.t) (w h : Z) (resized : Image.t) :
  pil_resize image w h = inr resized ->
  Image.width resized = w /\ Image.height resized = h.
Proof.
  unfold pil_resize. destruct ((w <? 1) || (h <? 1)); [discriminate |].
  intros [= <-]. split; reflexivity.
Qed.

Lemma pil_resize_positive (image : Image.t) (w h : Z) (resized : Image.t) :
  pil_resize image w h = inr resized -> 1 <= w /\ 1 <= h.
Proof.
  unfold pil_resize. destruct ((w <? 1) || (h <? 1)) eqn:E; [discriminate |].
  apply orb_false_iff in E as [Hw Hh]. apply Z.ltb_ge in Hw, Hh. auto.
Qed.

Lemma well_sized_full_hd : well_sized full_hd.
Proof. unfold well_sized, full_hd. cbn. split; (split; [lia | reflexivity]). Qed.

Lemma resize_image_dimensions_witness :
  (well_sized full_hd
   /\ _resize_image pil_resize full_hd 720 = inr (Image.mk 720 405 []))
  /\ Z.max 720 405 = 720
  /\ truncated_scale 1080 1920 720 = inr 405.
Proof.
  assert (H : _resize_image pil_resize full_hd 720 = inr (Image.mk 720 405 []))
    by (vm_compute; reflexivity).
  split; [split; [exact well_sized_full_hd | exact H] |].
  pose proof (resize_image_dimensions pil_resize pil_resize_size
                pil_resize_positive full_hd (Image.mk 720 405 []) 720
                well_sized_full_hd H) as T.
  cbn in T. destruct T as (T1 & _ & T2). split; [exact T1 | exact T2].
Defined.

(** The claim of C2 that the other side is rounded fails on a 16 by 15
    image with [max_dimension = 4]: the new height is
    [int(15 * (4 / 16)) = int(3.75) = 3], while [round(15 * 4 / 16) = 4]. *)
Lemma resize_image_truncates :
  _resize_image pil_resize small_frame 4 = inr (Image.mk 4 3 [])
  /\ rounded_scale 15 16 4 = 4
  /\ Image.height (Image.mk 4 3 []) <> rounded_scale 15 16 4.
Proof. repeat split; try (vm_compute; reflexivity). vm_compute. discriminate. Qed.

Lemma resize_image_idempotent_witness :
  well_sized full_hd
  /\ (resized ← _resize_image pil_resize full_hd 720;
      _resize_image pil_resize resized 720)
     = _resize_image pil_resize full_hd 720
  /\ _resize_image pil_resize full_hd 720 = inr (Image.mk 720 405 []).
Proof.
  split; [exact well_sized_full_hd |].
  split; [| vm_compute; reflexivity].
  exact (proj2 (resize_image_idempotent pil_resize pil_resize_size
                  pil_resize_positive full_hd 720 well_sized_full_hd)).
Defined.

(** ** Score statistics *)

Lemma foldl_min_spec (l : list Z) (x : Z) :
  foldl Z.min x l ∈ x :: l /\ Forall (Z.le (foldl Z.min x l)) (x :: l).
Proof.
  revert x. induction l as [| y l IH]; intros x; cbn [foldl].
  - split; [left | repeat constructor; lia].
  - destruct (IH (Z.min x y)) as [Hin Hall]. split.
    + apply elem_of_cons in Hin as [-> | Hin].
      * destruct (Z.min_spec x y) as [[_ ->] | [_ ->]];
          [left | right; left].
      * right. right. exact Hin.
    + apply Forall_cons in Hall as [Hm Hall].
      repeat constructor; [lia | lia | exact Hall].
Qed.

Lemma foldl_max_spec (l : list Z) (x : Z) :
  foldl Z.max x l ∈ x :: l /\ Forall (Z.ge (foldl Z.max x l)) (x :: l).
Proof.
  revert x. induction l as [| y l IH]; intros x; cbn [foldl].
  - split; [left | repeat constructor; lia].
  - destruct (IH (Z.max x y)) as [Hin Hall]. split.
    + apply elem_of_cons in Hin as [-> | Hin].
      * destruct (Z.max_spec x y) as [[_ ->] | [_ ->]];
          [right; left | left].
      * right. right. exact Hin.
    + apply Forall_cons in Hall as [Hm Hall].
      repeat constructor; [lia | lia | exact Hall].
Qed.

Lemma py_min_spec (l : list Z) (lo : Z) :
  py_min l = inr lo -> lo ∈ l /\ Forall (Z.le lo) l.
Proof.
  destruct l as [| x l]; [discriminate |]. intros [= <-]. apply foldl_min_spec.
Qed.

Lemma py_max_spec (l : list Z) (hi : Z) :
  py_max l = inr hi -> hi ∈ l /\ Forall (Z.ge hi) l.
Proof.
  destruct l as [| x l]; [discriminate |]. intros [= <-]. apply foldl_max_spec.
Qed.



(** ** Missing fields *)

Lemma foldl_add (l : list Z) (a : Z) : foldl Z.add a l = a + py_sum l.
Proof.
  unfold py_sum. revert a. induction l as [| x l IH]; intros a; cbn [foldl].
  - lia.
  - rewrite (IH (a + x)), (IH (0 + x)). lia.
Qed.

Lemma py_sum_cons (x : Z) (l : list Z) : py_sum (x :: l) = x + py_sum l.
Proof. unfold py_sum at 1. cbn [foldl]. rewrite foldl_add. lia. Qed.

Lemma py_sum_abs_bound (B : Z) (l : list Z) :
  Forall (fun x => Z.abs x <= B) l ->
  Z.abs (py_sum l) <= Z.of_nat (length l) * B.
Proof.
  induction 1 as [| x l Hx Hl IH]; [cbn; lia |].
  rewrite py_sum_cons. cbn [length]. lia.
Qed.

Lemma mapM_getitem_Some {A B : Type} (f : A -> option B) (key : string)
    (l : list A) :
  Forall (fun r => is_Some (f r)) l ->
  exists k, mapM (fun r => getitem key (f r)) l = inr k.
Proof.
  induction 1 as [| x l [b Hb] Hl [k IH]]; [by exists [] |].
  exists (b :: k). rewrite mapM_cons, Hb, IH. reflexivity.
Qed.









Section AverageBound.
Local Open Scope R_scope.

(** The average of scores of magnitude at most [2 ^ 971] is a double. *)
Lemma int_truediv_average (total count : Z) :
  (0 < count)%Z -> (Z.abs total <= count * 2 ^ 971)%Z ->
  exists avg_score, int_truediv total count = inr avg_score.
Proof.
  intros Hc Ht. apply int_truediv_inr; [lia |].
  rewrite (Z.abs_eq count) by lia.
  assert (Hc0 : 0 < IZR count) by (apply IZR_lt; lia).
  apply IZR_le in Ht. rewrite mult_IZR, bpow_IZR in Ht by lia.
  assert (Hq : IZR (Z.abs total) / IZR count <= bpow 971).
  { apply Rmult_le_reg_r with (r := IZR count); [exact Hc0 |].
    unfold Rdiv. rewrite Rmult_assoc, Rinv_l by lra. lra. }
  apply Rle_lt_trans with (rnd_bound (bpow 971)); [by apply rnd_bound_le |].
  change (emax - prec + 1)%Z with (971 + 1)%Z. rewrite bpow_succ.
  unfold rnd_bound. pose proof bpow_m53 as Hu.
  assert (H1 : 1 <= bpow 971)
    by (change 1 with (bpow 0); apply bpow_le; lia).
  assert (Heta : bpow (-1075) < bpow (-53)) by (apply bpow_lt; lia).
  assert (Hx : bpow 971 * bpow (-53) <= bpow 971 * / 2)
    by (apply Rmult_le_compat_l; lra).
  lra.
Qed.

End AverageBound.

Lemma add_cover_lookup (key : string) (stats cover_summary : gmap string Z) :
  key ∈ cover_keys ->
  add_cover stats cover_summary !! key
  = Some (get0 stats key + get0 cover_summary key).
Proof.
  intros Hk. unfold cover_keys in Hk.
  repeat (apply elem_of_cons in Hk as [-> | Hk]);
    [| | | | by apply elem_of_nil in Hk];
    unfold add_cover, cover_keys, get0; cbn [foldl];
    repeat first [rewrite lookup_insert_eq
                 | rewrite lookup_insert_ne by discriminate];
    reflexivity.
Qed.

Lemma cover_totals (key : string) (analyses : list Analysis.t)
    (stats : gmap string Z) :
  key ∈ cover_keys -> is_Some (stats !! key) ->
  foldl (fun stats a => add_cover stats (get_cover_summary a)) stats analyses
    !! key
  = Some (get0 stats key
          + py_sum (map (fun a => get0 (get_cover_summary a) key) analyses)).
Proof.
  intros Hk. revert stats.
  induction analyses as [| a analyses IH]; intros stats [v Hv].
  - cbn. unfold get0. rewrite Hv. cbn. f_equal. lia.
  - cbn [foldl map]. rewrite IH.
    + rewrite py_sum_cons. unfold get0 at 1.
      rewrite add_cover_lookup by exact Hk. cbn. f_equal. lia.
    + rewrite add_cover_lookup by exact Hk. eauto.
Qed.




(** * Further properties of the frame extractor *)

(** ** The positions that are sampled *)

Lemma list_or_nonempty {A : Type} (x : option (list A)) (d : list A) :
  d <> [] -> list_or x d <> [].
Proof. intros Hd. destruct x as [[| a l] |]; cbn; congruence. Qed.

(** X1.  The positions that [extract_key_frames] visits,
    [positions[:num_frames]] after the falsy arguments are replaced, are
    a prefix of the positions in effect, which are never empty; for a
    count [n >= 0] there are [min(n, len)] of them, and a negative [n]
    drops the last [-n] positions. *)
Theorem sample_plan_prefix (config : Config.t) (num_frames : option Z)
    (positions : option (list float)) :
  let n := int_or num_frames (Config.NUM_FRAMES config) in
  let in_effect := list_or positions Config.FRAME_EXTRACTION_POSITIONS in
  let plan := sample_plan config num_frames positions in
  in_effect <> []
  /\ plan `prefix_of` in_effect
  /\ length plan = if n <? 0
                   then (length in_effect - Z.to_nat (- n))%nat
                   else Nat.min (Z.to_nat n) (length in_effect).
Proof.
  cbn zeta. split; [by apply list_or_nonempty |].
  unfold sample_plan, slice_to.
  destruct (int_or num_frames (Config.NUM_FRAMES config) <? 0) eqn:E;
    (split; [apply prefix_take | rewrite length_take]).
  - apply Z.ltb_lt in E. lia.
  - reflexivity.
Qed.

(** ** The frames that are returned *)

Section ExtractedFrames.

Variable Image_resize : Image.t -> Z -> Z -> result Image.t.
Variable cap : Capture.t.
Variables total_frames resize_max : Z.

Lemma extract_frame_outcome (frames frames' : list (Image.t * float))
    (position : float) :
  extract_frame Image_resize cap total_frames resize_max frames position
  = inr frames'
  <-> exists outcome,
        frame_outcome Image_resize cap total_frames resize_max position
          outcome
        /\ frames' = frames ++ option_list outcome.
Proof.
  unfold extract_frame, frame_outcome. split.
  - intros H.
    apply bind_inr in H as (number & Hn & H).
    apply bind_inr in H as (timestamp & Ht & H).
    destruct (Capture.read cap number) as [pil_image |] eqn:Er.
    + apply bind_inr in H as (image & Hi & H). injection H as <-.
      exists (Some (image, timestamp)). split; [| reflexivity].
      exists number, timestamp. repeat split; try assumption.
      exists pil_image. split; [exact Er | exact Hi].
    + injection H as <-. exists None. split; [| by rewrite app_nil_r].
      exists number, timestamp. auto.
  - intros (outcome & (number & timestamp & Hn & Ht & H) & ->).
    rewrite Hn. cbn [mbind result_bind bind]. rewrite Ht.
    cbn [mbind result_bind bind].
    destruct outcome as [[image ts] |].
    + destruct H as (Hts & pil_image & Er & Hi). cbn in Hts. subst ts.
      rewrite Er. cbn [fst] in Hi. rewrite Hi. reflexivity.
    + rewrite H. cbn. by rewrite app_nil_r.
Qed.

Lemma for_each_extract_frame (plan : list float)
    (frames frames' : list (Image.t * float)) :
  for_each (extract_frame Image_resize cap total_frames resize_max) frames
    plan = inr frames'
  <-> exists outcomes,
        Forall2 (frame_outcome Image_resize cap total_frames resize_max)
          plan outcomes
        /\ frames' = frames ++ omap Datatypes.id outcomes.
Proof.
  revert frames. induction plan as [| position plan IH]; intros frames.
  - cbn [for_each]. split.
    + intros [= <-]. exists []. split; [constructor | by rewrite app_nil_r].
    + intros (outcomes & Hall & ->). apply Forall2_nil_inv_l in Hall as ->.
      cbn. by rewrite app_nil_r.
  - cbn [for_each]. split.
    + intros H. apply bind_inr in H as (acc & Hacc & H).
      apply extract_frame_outcome in Hacc as (outcome & Ho & ->).
      apply IH in H as (outcomes & Hall & ->).
      exists (outcome :: outcomes). split; [by constructor |].
      rewrite <- app_assoc. by destruct outcome.
    + intros (outcomes & Hall & ->).
      apply Forall2_cons_inv_l in Hall as (outcome & rest & Ho & Hall & ->).
      assert (Hstep : extract_frame Image_resize cap total_frames resize_max
                        frames position
                      = inr (frames ++ option_list outcome))
        by (apply extract_frame_outcome; eauto).
      rewrite Hstep. cbn [mbind result_bind bind]. apply IH.
      exists rest. split; [exact Hall |].
      rewrite <- app_assoc. by destruct outcome.
Qed.

End ExtractedFrames.

Lemma omap_id_length {A : Type} (l : list (option A)) :
  (length (omap Datatypes.id l) <= length l)%nat.
Proof. induction l as [| [a |] l IH]; cbn; lia. Qed.

(** X2.  [extract_key_frames] on a video that opens returns exactly when
    the frame count converts to an int, the duration [total_frames / fps]
    can be computed and every pass of the loop goes through; the frames
    returned are then, in the order of the sampled positions, the frames
    of the positions whose read succeeded, each with the timestamp
    [int(total_frames * position) / fps], so there are never more frames
    than sampled positions. *)
Theorem extract_key_frames_outcomes
    (Image_resize : Image.t -> Z -> Z -> result Image.t)
    (config : Config.t) (cap : Capture.t) (num_frames : option Z)
    (positions : option (list float)) (resize_max : option Z)
    (frames : list (Image.t * float)) :
  extract_key_frames Image_resize config (Video cap) num_frames positions
    resize_max = inr frames
  <-> exists total_frames duration outcomes,
        int_of_float (Capture.frame_count cap) = inr total_frames
        /\ int_div_float total_frames (Capture.fps cap) = inr duration
        /\ Forall2
             (frame_outcome Image_resize cap total_frames
                (int_or resize_max (Config.FRAME_RESIZE_MAX config)))
             (sample_plan config num_frames positions) outcomes
        /\ frames = omap Datatypes.id outcomes
        /\ (length frames
            <= length (sample_plan config num_frames positions))%nat.
Proof.
  unfold extract_key_frames. split.
  - intros H. apply bind_inr in H as (total_frames & Htotal & H).
    apply bind_inr in H as (duration & Hduration & H).
    apply for_each_extract_frame in H as (outcomes & Hall & ->).
    exists total_frames, duration, outcomes.
    repeat split; try assumption.
    cbn [app]. rewrite (Forall2_length _ _ _ Hall). apply omap_id_length.
  - intros (total_frames & duration & outcomes & -> & Hd & Hall & -> & _).
    cbn [mbind result_bind bind]. rewrite Hd. cbn [mbind result_bind bind].
    apply for_each_extract_frame. eauto.
Qed.

Lemma extract_key_frames_outcomes_witness :
  exists frames,
    extract_key_frames pil_resize Config.default (Video sample_capture)
      None None None = inr frames
    /\ (length frames <= 3)%nat.
Proof.
  destruct (extract_key_frames pil_resize Config.default
              (Video sample_capture) None None None) as [e | frames] eqn:E;
    [vm_compute in E; discriminate |].
  exists frames. split; [reflexivity |].
  apply (extract_key_frames_outcomes pil_resize Config.default
           sample_capture None None None frames) in E
    as (_ & _ & _ & _ & _ & _ & _ & H).
  exact H.
Defined.

(** ** The size of the frames that are returned *)

Section ExtractedFramesFit.

Variable Image_resize : Image.t -> Z -> Z -> result Image.t.

Hypothesis Image_resize_size :
  forall image w h resized,
    Image_resize image w h = inr resized ->
    Image.width resized = w /\ Image.height resized = h.

Hypothesis Image_resize_positive :
  forall image w h resized,
    Image_resize image w h = inr resized -> 1 <= w /\ 1 <= h.

Lemma resize_image_result_fits (image resized : Image.t) (max_dimension : Z) :
  well_sized image ->
  _resize_image Image_resize image max_dimension = inr resized ->
  fits max_dimension resized.
Proof.
  intros Hwf H. unfold fits.
  destruct ((Image.width image <=? max_dimension)
            && (Image.height image <=? max_dimension)) eqn:Hbig.
  - unfold _resize_image in H. rewrite Hbig in H. injection H as <-.
    apply andb_true_iff in Hbig as [Hw Hh]. split; by apply Z.leb_le.
  - destruct (resize_image_fits Image_resize Image_resize_size
                Image_resize_positive _ _ _ Hwf H Hbig) as [Hw Hh].
    lia.
Qed.

(** X3.  When the resize maximum in effect is not 0 (an argument of 0
    or [None] stands for the configured [FRAME_RESIZE_MAX]) and the video
    decodes to frames of a valid size, every frame that
    [extract_key_frames] returns fits in a square of that side. *)
Theorem extract_key_frames_fit (config : Config.t) (cap : Capture.t)
    (num_frames : option Z) (positions : option (list float))
    (resize_max : option Z) (frames : list (Image.t * float)) :
  Config.FRAME_RESIZE_MAX config <> 0 ->
  (forall number pil_image,
      Capture.read cap number = Some pil_image -> well_sized pil_image) ->
  extract_key_frames Image_resize config (Video cap) num_frames positions
    resize_max = inr frames ->
  Forall (fun frame =>
            fits (int_or resize_max (Config.FRAME_RESIZE_MAX config)) frame.1)
    frames.
Proof.
  intros Hmax Hread H. unfold extract_key_frames in H.
  apply bind_inr in H as (total_frames & _ & H).
  apply bind_inr in H as (duration & _ & H).
  apply for_each_extract_frame in H as (outcomes & Hall & ->).
  cbn [app].
  set (m := int_or resize_max (Config.FRAME_RESIZE_MAX config)) in *.
  assert (Hm : (m =? 0) = false).
  { apply Z.eqb_neq. subst m. unfold int_or.
    destruct resize_max as [n |]; [| exact Hmax].
    destruct (Z.eqb_spec n 0); assumption. }
  induction Hall as [| position outcome plan outcomes Ho Hall IH];
    [constructor |].
  destruct outcome as [frame |]; cbn; [constructor |]; try exact IH.
  destruct Ho as (number & timestamp & _ & _ & _ & pil_image & Hr & Hi).
  rewrite Hm in Hi.
  eapply resize_image_result_fits; [eapply Hread, Hr | exact Hi].
Qed.

End ExtractedFramesFit.

Lemma sample_capture_well_sized (number : Z) (pil_image : Image.t) :
  Capture.read sample_capture number = Some pil_image -> well_sized pil_image.
Proof.
  cbn. destruct (number =? 50); [discriminate |]. intros [= <-].
  split; split; try (cbn; lia); reflexivity.
Qed.

Lemma extract_key_frames_fit_witness :
  exists frames,
    extract_key_frames pil_resize Config.default (Video sample_capture)
      None None None = inr frames
    /\ Forall (fun frame => fits 720 frame.1) frames.
Proof.
  destruct (extract_key_frames pil_resize Config.default
              (Video sample_capture) None None None) as [e | frames] eqn:E;
    [vm_compute in E; discriminate |].
  exists frames. split; [reflexivity |].
  apply (extract_key_frames_fit pil_resize pil_resize_size
           pil_resize_positive Config.default sample_capture None None None
           frames); [discriminate | apply sample_capture_well_sized | exact E].
Defined.

(** ** A frame rate of zero *)

(** X4.  When the capture reports a frame rate of 0 and a frame count
    in [[0, 2 ^ 53)], [extract_key_frames] raises [ZeroDivisionError] at
    [duration = total_frames / fps], whatever the other arguments are. *)
Theorem extract_key_frames_zero_fps
    (Image_resize : Image.t -> Z -> Z -> result Image.t)
    (config : Config.t) (cap : Capture.t) (num_frames : option Z)
    (positions : option (list float)) (resize_max : option Z)
    (total_frames : Z) :
  is_zero (Capture.fps cap) = true ->
  int_of_float (Capture.frame_count cap) = inr total_frames ->
  0 <= total_frames < 2 ^ 53 ->
  extract_key_frames Image_resize config (Video cap) num_frames positions
    resize_max = inl ZeroDivisionError.
Proof.
  intros Hfps Htotal Hrange. unfold extract_key_frames.
  rewrite Htotal. cbn [mbind result_bind bind]. unfold int_div_float.
  destruct (float_of_int_bound total_frames Hrange) as (f & -> & _).
  cbn [mbind result_bind bind]. rewrite Hfps. reflexivity.
Qed.

Lemma extract_key_frames_zero_fps_witness :
  extract_key_frames pil_resize Config.default (Video stalled_capture)
    None None None = inl ZeroDivisionError.
Proof.
  apply (extract_key_frames_zero_fps pil_resize Config.default
           stalled_capture None None None 100).
  - reflexivity.
  - vm_compute. reflexivity.
  - split; [lia | reflexivity].
Defined.

(** * Further properties of the summarizer *)

(** ** The exceptions of [aggregate_analysis] *)

Lemma mapM_inl_elem {A B : Type} (f : A -> result B) (l : list A) (e : exn) :
  mapM f l = inl e -> exists x, x ∈ l /\ f x = inl e.
Proof.
  induction l as [| x l IH]; [discriminate |].
  rewrite mapM_cons. intros H.
  apply bind_inl in H as [H | (y & _ & H)].
  { exists x. split; [left | exact H]. }
  apply bind_inl in H as [H | (k & _ & H)]; [| discriminate].
  destruct (IH H) as (x' & Hin & Hx'). exists x'. split; [by right | exact Hx'].
Qed.

Lemma mapM_getitem_None {A B : Type} (f : A -> option B) (key : string)
    (l : list A) :
  (exists x, x ∈ l /\ f x = None) ->
  mapM (fun r => getitem key (f r)) l = inl (KeyError key).
Proof.
  induction l as [| x l IH]; intros (x' & Hin & Hx').
  - by apply elem_of_nil in Hin.
  - rewrite mapM_cons. destruct (f x) as [b |] eqn:Ex; [| reflexivity].
    apply elem_of_cons in Hin as [-> | Hin]; [congruence |].
    cbn [getitem ret mbind result_bind bind]. rewrite IH by eauto.
    reflexivity.
Qed.

Lemma mapM_getitem_is_Some {A B : Type} (f : A -> option B) (key : string)
    (l : list A) (k : list B) :
  mapM (fun r => getitem key (f r)) l = inr k ->
  Forall (fun r => is_Some (f r)) l.
Proof.
  intros H. apply mapM_getitem_inr in H. revert k H.
  induction l as [| x l IH]; intros [| y k] H; try discriminate;
    [constructor |].
  cbn in H. injection H as Hx Hl. constructor; [by eexists | eauto].
Qed.

Lemma frame_entry_inl_key (r : FrameResult.t) (e : exn) :
  frame_entry r = inl e -> exists key, e = KeyError key /\ lacks_key key r.
Proof.
  unfold frame_entry, lacks_key.
  destruct (FrameResult.index r) as [i |] eqn:Ei;
    [| intros [= <-]; eexists; split; [reflexivity | tauto]].
  destruct (FrameResult.timestamp r) as [t |] eqn:Et;
    [| intros [= <-]; eexists; split; [reflexivity | tauto]].
  destruct (FrameResult.analysis r) as [a |] eqn:Ea;
    [discriminate | intros [= <-]; eexists; split; [reflexivity | tauto]].
Qed.

Lemma frame_entry_inr_keys (r : FrameResult.t) (f : Summary.frame) :
  frame_entry r = inr f -> has_keys r.
Proof.
  unfold frame_entry, has_keys.
  destruct (FrameResult.index r), (FrameResult.timestamp r),
    (FrameResult.analysis r); try discriminate.
  intros _. repeat split; by eexists.
Qed.

Lemma mapM_frame_entry_keys (l : list FrameResult.t)
    (frames : list Summary.frame) :
  mapM frame_entry l = inr frames -> Forall has_keys l.
Proof.
  revert frames. induction l as [| r l IH]; intros frames H; [constructor |].
  rewrite mapM_cons in H.
  apply bind_inr in H as (f & Hf & H).
  apply bind_inr in H as (k & Hk & _).
  constructor; [by eapply frame_entry_inr_keys | eauto].
Qed.

Lemma scores_in_range (l : list FrameResult.t) :
  Forall score_in_range l ->
  Forall (fun x => Z.abs x <= 2 ^ 971)
    (map get_score (omap FrameResult.analysis l)).
Proof.
  induction 1 as [| r l Hr Hl IH]; [constructor |].
  cbn [omap list_omap]. unfold score_in_range in Hr.
  destruct (FrameResult.analysis r) as [a |]; [| exact IH].
  cbn [map]. by constructor.
Qed.

(** Why [aggregate_analysis] raises, when it does. *)
Lemma aggregate_analysis_inl (analysis_results : list FrameResult.t)
    (video_metadata : VideoMetadata.t) (e : exn) :
  aggregate_analysis analysis_results video_metadata = inl e ->
  (analysis_results = []
   /\ e = ValueError "No analysis results to aggregate")
  \/ (exists key r,
         e = KeyError key /\ r ∈ analysis_results /\ lacks_key key r)
  \/ (e = OverflowError
      /\ Forall (fun r => is_Some (FrameResult.analysis r)) analysis_results
      /\ ~ Forall score_in_range analysis_results).
Proof.
  destruct analysis_results as [| r rs]; [intros [= <-]; by left |].
  intros H. right. unfold aggregate_analysis in H. set (l := r :: rs) in *.
  apply bind_inl in H as [H | (analyses & Han & H)].
  { left. apply mapM_inl_elem in H as (x & Hin & Hx). cbn beta in Hx.
    exists "analysis", x. unfold lacks_key.
    destruct (FrameResult.analysis x); [discriminate |].
    injection Hx as <-. auto. }
  pose proof (mapM_getitem_is_Some _ _ _ _ Han) as Hsome.
  pose proof (mapM_inr_length _ _ _ Han) as Hlen.
  apply mapM_getitem_inr, omap_map_Some in Han.
  apply bind_inl in H as [H | (avg & _ & H)].
  { right.
    replace (0 <? Z.of_nat (length l)) with true in H
      by (symmetry; apply Z.ltb_lt; subst l; cbn [length]; lia).
    assert (He : e = OverflowError).
    { unfold int_truediv in H.
      destruct (Z.eqb_spec (Z.of_nat (length l)) 0) as [H0 | _];
        [subst l; cbn [length] in H0; lia |].
      destruct (py_sum (map get_score analyses)); [discriminate | |];
        destruct (fdiv _ _); try discriminate; by injection H. }
    split; [exact He |]. split; [exact Hsome |]. intros Hrange. subst e.
    apply scores_in_range, py_sum_abs_bound in Hrange.
    rewrite Han, length_map, Hlen in Hrange.
    destruct (int_truediv_average (py_sum (map get_score analyses))
                (Z.of_nat (length l))) as [avg Havg];
      [subst l; cbn [length]; lia | exact Hrange | congruence]. }
  apply bind_inl in H as [H | (frames & _ & H)].
  { left. apply mapM_inl_elem in H as (x & Hin & Hx).
    apply frame_entry_inl_key in Hx as (key & -> & Hkey). eauto. }
  destruct analyses as [| a analyses]; [discriminate |].
  cbn in H. discriminate.
Qed.

(** X5.  [aggregate_analysis] returns only for a non-empty list whose
    records all have the keys 'analysis', 'index' and 'timestamp'.  It
    raises [ValueError] only for the empty list, [KeyError] only with a
    key that some record lacks, [OverflowError] only when every record
    has its analysis and some score is beyond [2 ^ 971] in magnitude,
    and no other exception. *)
Theorem aggregate_analysis_exceptions
    (analysis_results : list FrameResult.t)
    (video_metadata : VideoMetadata.t) :
  match aggregate_analysis analysis_results video_metadata with
  | inr _ => analysis_results <> [] /\ Forall has_keys analysis_results
  | inl (ValueError _) => analysis_results = []
  | inl (KeyError key) =>
      exists r, r ∈ analysis_results /\ lacks_key key r
  | inl OverflowError =>
      Forall (fun r => is_Some (FrameResult.analysis r)) analysis_results
      /\ ~ Forall score_in_range analysis_results
  | inl _ => False
  end.
Proof.
  destruct (aggregate_analysis analysis_results video_metadata)
    as [e | summary] eqn:E.
  - apply aggregate_analysis_inl in E
      as [[-> ->] | [(key & r & -> & Hin & Hkey) | (-> & Hsome & Hrange)]];
      eauto.
  - apply aggregate_analysis_inr in E. cbn zeta in E.
    destruct E as (_ & _ & _ & _ & Hne & _ & _ & _ & _ & _ & _ & _ & _ & _ & H).
    split; [exact Hne | by eapply mapM_frame_entry_keys].
Qed.

(** X6.  A record without the key 'analysis' anywhere in the list makes
    [aggregate_analysis] raise [KeyError] for 'analysis', before a
    missing 'index' or 'timestamp' or an overflow is met. *)
Theorem aggregate_analysis_missing_analysis
    (analysis_results : list FrameResult.t)
    (video_metadata : VideoMetadata.t) :
  (exists r, r ∈ analysis_results /\ FrameResult.analysis r = None) ->
  aggregate_analysis analysis_results video_metadata
  = inl (KeyError "analysis").
Proof.
  intros H. unfold aggregate_analysis.
  destruct analysis_results as [| r rs].
  { destruct H as (x & Hin & _). by apply elem_of_nil in Hin. }
  rewrite (mapM_getitem_None FrameResult.analysis "analysis" _ H).
  reflexivity.
Qed.

Lemma aggregate_analysis_missing_analysis_witness :
  aggregate_analysis [no_index_result; huge_score_result; no_analysis_result]
    no_metadata
  = inl (KeyError "analysis").
Proof.
  apply (aggregate_analysis_missing_analysis
           [no_index_result; huge_score_result; no_analysis_result]
           no_metadata).
  exists no_analysis_result. split; [| reflexivity].
  right. right. left.
Defined.

(** ** The per-frame entries and the totals *)

(** The fields of a summary that are copied or counted. *)
Lemma aggregate_analysis_fields (analysis_results : list FrameResult.t)
    (video_metadata : VideoMetadata.t) (summary : Summary.t) :
  aggregate_analysis analysis_results video_metadata = inr summary ->
  Summary.frame_count summary = Z.of_nat (length analysis_results)
  /\ Summary.formations_used summary
     = list_to_set
         (map get_formation (omap FrameResult.analysis analysis_results))
  /\ Summary.video_name summary
     = default "Unknown" (VideoMetadata.filename video_metadata)
  /\ Summary.duration summary
     = default (S754_zero false) (VideoMetadata.duration video_metadata)
  /\ Summary.resolution summary
     = default (0, 0) (VideoMetadata.resolution video_metadata).
Proof.
  intros H. unfold aggregate_analysis in H.
  destruct analysis_results as [| r rs]; [discriminate |].
  set (l := r :: rs) in *.
  apply bind_inr in H as (analyses & Han & H).
  apply bind_inr in H as (avg_score & Havg & H).
  apply bind_inr in H as (frames & Hfr & H).
  apply bind_inr in H as (lo & Hlo & H).
  apply bind_inr in H as (hi & Hhi & H).
  injection H as <-.
  apply mapM_getitem_inr, omap_map_Some in Han. rewrite Han.
  cbn. repeat split.
Qed.

(** The entries of ['frames_analyzed'] carry, in the order of the
    records, what the totals are computed from. *)
Lemma mapM_frame_entry_fields (l : list FrameResult.t)
    (frames : list Summary.frame) :
  mapM frame_entry l = inr frames ->
  let analyses := omap FrameResult.analysis l in
  map FrameResult.index l = map (fun f => Some (Summary.index f)) frames
  /\ map FrameResult.timestamp l
     = map (fun f => Some (Summary.timestamp f)) frames
  /\ map get_score analyses = map Summary.score frames
  /\ map get_formation analyses = map Summary.formation frames
  /\ map get_soldier_count analyses = map Summary.soldier_count frames
  /\ map get_cover_summary analyses = map Summary.cover_summary frames.
Proof.
  revert frames. induction l as [| r l IH]; intros frames H.
  - injection H as <-. cbn. repeat split.
  - rewrite mapM_cons in H.
    apply bind_inr in H as (f & Hf & H).
    apply bind_inr in H as (k & Hk & H). injection H as <-.
    destruct (IH _ Hk) as (H1 & H2 & H3 & H4 & H5 & H6).
    unfold frame_entry in Hf. cbn zeta. cbn [map omap list_omap].
    destruct (FrameResult.index r) as [i |]; [| discriminate].
    destruct (FrameResult.timestamp r) as [t |]; [| discriminate].
    destruct (FrameResult.analysis r) as [a |]; [| discriminate].
    injection Hf as <-. cbn [map]. cbn.
    repeat split; f_equal; assumption.
Qed.

(** X7.  The summary is consistent with its own ['frames_analyzed']:
    there is one entry per record, in the order of the records, with the
    record's index and timestamp; [frame_count] is their number,
    [total_soldiers] the sum of their soldier counts, [min_score] and
    [max_score] the least and greatest of their scores, the average is
    the quotient of the sum of their scores by [frame_count],
    [formations_used] the set of their formations, and each of the four
    cover statistics the sum of their cover counters. *)
Theorem frames_analyzed_consistent (analysis_results : list FrameResult.t)
    (video_metadata : VideoMetadata.t) (summary : Summary.t) :
  aggregate_analysis analysis_results video_metadata = inr summary ->
  let frames := Summary.frames_analyzed summary in
  let overall := Summary.overall_performance summary in
  Summary.frame_count summary = Z.of_nat (length frames)
  /\ map FrameResult.index analysis_results
     = map (fun f => Some (Summary.index f)) frames
  /\ map FrameResult.timestamp analysis_results
     = map (fun f => Some (Summary.timestamp f)) frames
  /\ Summary.total_soldiers summary
     = py_sum (map Summary.soldier_count frames)
  /\ py_min (map Summary.score frames) = inr (Summary.min_score overall)
  /\ py_max (map Summary.score frames) = inr (Summary.max_score overall)
  /\ (exists avg_score,
         int_truediv (py_sum (map Summary.score frames))
           (Summary.frame_count summary) = inr avg_score
         /\ Summary.average_score overall = round1 avg_score)
  /\ Summary.formations_used summary
     = list_to_set (map Summary.formation frames)
  /\ Forall
       (fun key =>
          Summary.cover_statistics summary !! key
          = Some (py_sum (map (fun f => get0 (Summary.cover_summary f) key)
                            frames)))
       cover_keys.
Proof.
  intros H. pose proof (aggregate_analysis_fields _ _ _ H) as (Hc & Hf & _).
  apply aggregate_analysis_inr in H. cbn zeta in H.
  destruct H as (avg & lo & hi & Hlen & Hne & Havg & Hlo & Hhi & Hperf
                 & _ & _ & _ & Hcov & Hsol & Hfr).
  pose proof (mapM_inr_length _ _ _ Hfr) as Hlf.
  apply mapM_frame_entry_fields in Hfr. cbn zeta in Hfr.
  destruct Hfr as (H1 & H2 & H3 & H4 & H5 & H6).
  cbn zeta. rewrite Hperf, Hc, Hf, Hsol, Hlf, <- H3, <- H4, <- H5.
  cbn [Summary.min_score Summary.max_score Summary.average_score].
  refine (conj eq_refl (conj H1 (conj H2 (conj eq_refl (conj Hlo (conj Hhi
            (conj _ (conj eq_refl _)))))))).
  { exists avg. split; [exact Havg | reflexivity]. }
  rewrite Hcov. apply Forall_forall. intros key Hk.
  rewrite cover_totals; [| exact Hk |].
  - f_equal.
    replace (map (fun f => get0 (Summary.cover_summary f) key)
               (Summary.frames_analyzed summary))
      with (map (fun c => get0 c key)
              (map Summary.cover_summary (Summary.frames_analyzed summary)))
      by (rewrite map_map; reflexivity).
    rewrite <- H6, map_map.
    assert (Hinit : get0 (list_to_map (map (fun key => (key, 0)) cover_keys))
                      key = 0).
    { unfold cover_keys in Hk.
      repeat (apply elem_of_cons in Hk as [-> | Hk]);
        [| | | | by apply elem_of_nil in Hk]; reflexivity. }
    rewrite Hinit. lia.
  - unfold cover_keys in Hk.
    repeat (apply elem_of_cons in Hk as [-> | Hk]);
      [| | | | by apply elem_of_nil in Hk]; by eexists.
Qed.

Lemma frames_analyzed_consistent_witness :
  exists summary,
    aggregate_analysis three_frames no_metadata = inr summary
    /\ Summary.frame_count summary
       = Z.of_nat (length (Summary.frames_analyzed summary))
    /\ map (fun f => Some (Summary.index f)) (Summary.frames_analyzed summary)
       = [Some 0; Some 1; Some 2].
Proof.
  destruct (aggregate_analysis three_frames no_metadata)
    as [e | summary] eqn:E; [vm_compute in E; discriminate |].
  exists summary. split; [reflexivity |].
  pose proof (frames_analyzed_consistent _ _ _ E) as H.
  cbn zeta in H. destruct H as (H1 & H2 & _).
  split; [exact H1 | rewrite <- H2; reflexivity].
Defined.

(** ** Score range *)

Lemma Forall_le_ge_eq (l : list Z) (lo : Z) :
  lo ∈ l -> Forall (Z.le lo) l -> Forall (Z.ge lo) l -> Forall (eq lo) l.
Proof.
  intros _ Hle Hge. rewrite Forall_forall in *. intros x Hx.
  specialize (Hle x Hx). specialize (Hge x Hx). lia.
Qed.

(** X8.  In a summary, [min_score <= max_score], so [score_range] is
    never negative, and it is 0 exactly when all the frames have the
    same score. *)
Theorem score_range_nonnegative (analysis_results : list FrameResult.t)
    (video_metadata : VideoMetadata.t) (summary : Summary.t) :
  aggregate_analysis analysis_results video_metadata = inr summary ->
  let scores := map get_score (omap FrameResult.analysis analysis_results) in
  let overall := Summary.overall_performance summary in
  Summary.min_score overall <= Summary.max_score overall
  /\ 0 <= Summary.score_range overall
  /\ (Summary.score_range overall = 0
      <-> exists score, Forall (eq score) scores).
Proof.
  intros H. apply aggregate_analysis_inr in H. cbn zeta in H.
  destruct H as (avg & lo & hi & Hlen & Hne & _ & Hlo & Hhi & Hperf & _).
  cbn zeta. rewrite Hperf.
  cbn [Summary.min_score Summary.max_score Summary.score_range].
  destruct (py_min_spec _ _ Hlo) as [Hlo1 Hlo2].
  destruct (py_max_spec _ _ Hhi) as [Hhi1 Hhi2].
  assert (Hle : lo <= hi).
  { rewrite Forall_forall in Hlo2. apply Hlo2, Hhi1. }
  split; [exact Hle |]. split; [lia |]. split.
  - intros H0. assert (hi = lo) as -> by lia.
    exists lo. by apply Forall_le_ge_eq.
  - intros (score & Hall). rewrite Forall_forall in Hall.
    rewrite <- (Hall _ Hlo1), <- (Hall _ Hhi1). lia.
Qed.

Lemma score_range_witness :
  exists summary,
    aggregate_analysis three_frames no_metadata = inr summary
    /\ 0 <= Summary.score_range (Summary.overall_performance summary).
Proof.
  destruct (aggregate_analysis three_frames no_metadata)
    as [e | summary] eqn:E; [vm_compute in E; discriminate |].
  exists summary. split; [reflexivity |].
  pose proof (score_range_nonnegative _ _ _ E) as H.
  cbn zeta in H. exact (proj1 (proj2 H)).
Defined.

(** ** Totals, examples and categories *)

Section CategoryKeys.

Variable step : gmap string Z -> string -> gmap string Z.
Variable keys : list string.

Hypothesis step_other :
  forall key freq text, key ∉ keys -> step freq text !! key = freq !! key.

Hypothesis step_key :
  forall key, key ∈ keys ->
    exists p, forall freq text,
      step freq text !! key = bump (p text) (freq !! key).

Lemma foldl_other (l : list string) (freq : gmap string Z) (key : string) :
  key ∉ keys -> foldl step freq l !! key = freq !! key.
Proof.
  intros Hk. revert freq.
  induction l as [| text l IH]; intros freq; [reflexivity |].
  cbn [foldl]. rewrite IH. by apply step_other.
Qed.

(** A category that the loop has created is one of [keys]; its count is
    at least 1 and at most the number of strings. *)
Lemma foldl_category_bounds (l : list string) (key : string) (c : Z) :
  foldl step ∅ l !! key = Some c ->
  key ∈ keys /\ 1 <= c <= Z.of_nat (length l).
Proof.
  intros H. destruct (decide (key ∈ keys)) as [Hk | Hk].
  - split; [exact Hk |]. destruct (step_key key Hk) as [p Hp].
    rewrite (foldl_tally step key p Hp) in H. unfold tally in H.
    pose proof (length_filter (fun s => p s = true) l) as Hlen.
    destruct (filter _ l) as [| t m]; [discriminate |].
    injection H as <-. cbn [length] in *. lia.
  - rewrite foldl_other, lookup_empty in H by exact Hk. discriminate.
Qed.

End CategoryKeys.

Lemma categorize_error_other (key : string) (freq : gmap string Z)
    (error : string) :
  key ∉ error_categories -> categorize_error freq error !! key = freq !! key.
Proof.
  intros Hk. unfold error_categories in Hk.
  apply not_elem_of_cons in Hk as [H1 Hk].
  apply not_elem_of_cons in Hk as [H2 Hk].
  apply not_elem_of_cons in Hk as [H3 _].
  unfold categorize_error. by rewrite !count_if_lookup_ne.
Qed.

Lemma categorize_error_key (key : string) :
  key ∈ error_categories ->
  exists p, forall freq error,
    categorize_error freq error !! key = bump (p error) (freq !! key).
Proof.
  intros Hk. unfold error_categories in Hk.
  repeat (apply elem_of_cons in Hk as [-> | Hk]);
    [| | | by apply elem_of_nil in Hk];
    eexists; intros freq error;
    apply (categorize_error_lookup freq error).
Qed.

Lemma categorize_strength_other (key : string) (freq : gmap string Z)
    (strength : string) :
  key ∉ strength_categories ->
  categorize_strength freq strength !! key = freq !! key.
Proof.
  intros Hk. unfold strength_categories in Hk.
  apply not_elem_of_cons in Hk as [H1 Hk].
  apply not_elem_of_cons in Hk as [H2 Hk].
  apply not_elem_of_cons in Hk as [H3 _].
  unfold categorize_strength. by rewrite !count_if_lookup_ne.
Qed.

Lemma categorize_strength_key (key : string) :
  key ∈ strength_categories ->
  exists p, forall freq strength,
    categorize_strength freq strength !! key
    = bump (p strength) (freq !! key).
Proof.
  intros Hk. unfold strength_categories in Hk.
  repeat (apply elem_of_cons in Hk as [-> | Hk]);
    [| | | by apply elem_of_nil in Hk];
    eexists; intros freq strength;
    apply (categorize_strength_lookup freq strength).
Qed.

Lemma length_concat_py_sum {A : Type} (ls : list (list A)) :
  Z.of_nat (length (concat ls))
  = py_sum (map (fun l => Z.of_nat (length l)) ls).
Proof.
  induction ls as [| l ls IH]; [reflexivity |].
  cbn [concat map]. rewrite py_sum_cons, length_app. lia.
Qed.

Lemma slice_to_5_length {A : Type} (l : list A) :
  slice_to l 5 `prefix_of` l
  /\ Z.of_nat (length (slice_to l 5)) = Z.min 5 (Z.of_nat (length l)).
Proof.
  rewrite slice_to_nonneg by lia. split; [apply prefix_take |].
  rewrite length_take. lia.
Qed.

(** X9.  In a summary, the [total] of the tactical errors is the sum
    over the frames of their numbers of errors; the [examples] are the
    first [min(5, total)] errors in frame order; and [by_category] holds
    no other key than 'spacing_issues', 'cover_issues' and
    'formation_issues', each with a count of at least 1 and at most
    [total] (a category without a match has no key).  The same holds for
    the strengths with 'cover_utilization', 'formation_discipline' and
    'weapon_discipline'. *)
Theorem tactical_totals_and_categories
    (analysis_results : list FrameResult.t)
    (video_metadata : VideoMetadata.t) (summary : Summary.t) :
  aggregate_analysis analysis_results video_metadata = inr summary ->
  let analyses := omap FrameResult.analysis analysis_results in
  let errors := Summary.tactical_errors summary in
  let strengths := Summary.tactical_strengths summary in
  Summary.total errors
  = py_sum (map (fun a => Z.of_nat (length (get_errors a))) analyses)
  /\ Summary.examples errors `prefix_of` concat (map get_errors analyses)
  /\ Z.of_nat (length (Summary.examples errors))
     = Z.min 5 (Summary.total errors)
  /\ (forall key c,
         Summary.by_category errors !! key = Some c ->
         key ∈ error_categories /\ 1 <= c <= Summary.total errors)
  /\ Summary.total strengths
     = py_sum (map (fun a => Z.of_nat (length (get_strengths a))) analyses)
  /\ Summary.examples strengths
       `prefix_of` concat (map get_strengths analyses)
  /\ Z.of_nat (length (Summary.examples strengths))
     = Z.min 5 (Summary.total strengths)
  /\ (forall key c,
         Summary.by_category strengths !! key = Some c ->
         key ∈ strength_categories /\ 1 <= c <= Summary.total strengths).
Proof.
  intros H. apply aggregate_analysis_inr in H. cbn zeta in H.
  destruct H as (avg & lo & hi & _ & _ & _ & _ & _ & _ & He & Hs & _).
  cbn zeta. rewrite He, Hs.
  cbn [Summary.total Summary.examples Summary.by_category].
  rewrite !length_concat_py_sum, !map_map.
  set (analyses := omap FrameResult.analysis analysis_results).
  pose proof (slice_to_5_length (concat (map get_errors analyses)))
    as [He1 He2].
  pose proof (slice_to_5_length (concat (map get_strengths analyses)))
    as [Hs1 Hs2].
  rewrite length_concat_py_sum, map_map in He2, Hs2.
  refine (conj eq_refl (conj He1 (conj He2 (conj _
            (conj eq_refl (conj Hs1 (conj Hs2 _))))))).
  - intros key c Hc.
    apply (foldl_category_bounds categorize_error error_categories)
      in Hc as [Hk Hc];
      [| intros; by apply categorize_error_other
       | apply categorize_error_key].
    rewrite length_concat_py_sum, map_map in Hc. auto.
  - intros key c Hc.
    apply (foldl_category_bounds categorize_strength strength_categories)
      in Hc as [Hk Hc];
      [| intros; by apply categorize_strength_other
       | apply categorize_strength_key].
    rewrite length_concat_py_sum, map_map in Hc. auto.
Qed.

Lemma tactical_totals_witness :
  exists summary,
    aggregate_analysis multi_category_results no_metadata = inr summary
    /\ Summary.total (Summary.tactical_errors summary) = 1
    /\ Z.of_nat (length (Summary.examples (Summary.tactical_errors summary)))
       = 1.
Proof.
  destruct (aggregate_analysis multi_category_results no_metadata)
    as [e | summary] eqn:E; [vm_compute in E; discriminate |].
  exists summary. split; [reflexivity |].
  pose proof (tactical_totals_and_categories _ _ _ E) as H.
  cbn zeta in H. destruct H as (H1 & _ & H3 & _).
  rewrite H3, H1. split; reflexivity.
Defined.

(** ** Rating and recommendations *)

(** The recommendations are never empty and never repeat one; the
    fundamentals come first when the average is below 70, and not at all
    otherwise. *)
Lemma generate_recommendations_shape (avg_score : float)
    (errors strengths : gmap string Z) :
  let recs := _generate_recommendations avg_score errors strengths in
  recs <> [] /\ NoDup recs
  /\ (if lt_int avg_score 70 then head recs = Some rec_fundamentals
      else rec_fundamentals ∉ recs).
Proof.
  unfold _generate_recommendations.
  destruct (lt_int avg_score 70);
    destruct (2 <=? get0 errors "spacing_issues");
    destruct (2 <=? get0 errors "cover_issues");
    destruct (2 <=? get0 errors "formation_issues");
    destruct (2 <=? get0 strengths "weapon_discipline");
    destruct (2 <=? get0 strengths "formation_discipline");
    cbn [append_if app]; rewrite slice_to_nonneg by lia;
    cbn [firstn Z.to_nat Pos.to_nat Pos.iter_op Init.Nat.add length];
    (split; [discriminate |]); (split; [decide_closed |]);
    first [reflexivity | decide_closed].
Qed.

(** Two finite positive doubles compare by exponent, then by mantissa. *)
Lemma compare_bands (c60 c70 c75 : positive) (m : positive) (e : Z) :
  (c70 < c75)%positive ->
  (SFleb (S754_finite false c75 (-46)) (S754_finite false m e) = true ->
   SFltb (S754_finite false m e) (S754_finite false c70 (-46)) = false)
  /\ (SFleb (S754_finite false c60 (-47)) (S754_finite false m e) = false ->
      SFltb (S754_finite false m e) (S754_finite false c70 (-46)) = true).
Proof.
  intros Hc. unfold SFleb, SFltb, SFcompare.
  change (PosDef.Pos.compare_cont Eq ?a ?b) with (Pos.compare a b).
  destruct (Z.compare_spec (-46) e), (Z.compare_spec e (-46)),
    (Z.compare_spec (-47) e); try lia.
  all: destruct (Pos.compare_spec c75 m), (Pos.compare_spec m c70),
    (Pos.compare_spec c60 m).
  all: split; intros; try reflexivity; try discriminate; exfalso; lia.
Qed.

(** The thresholds of the rating against the threshold 70 of the first
    recommendation. *)
Lemma rating_thresholds_70 (score : float) :
  (ge_int score 75 = true -> lt_int score 70 = false)
  /\ (ge_int score 60 = false -> score <> S754_nan ->
      lt_int score 70 = true).
Proof.
  unfold ge_int, lt_int.
  eval_const 75; eval_const 70; eval_const 60.
  destruct score as [s | [] | | [] m e];
    try (split; [intros H | intros H Hnan]; first
           [reflexivity | discriminate H | exfalso; apply Hnan; reflexivity]).
  destruct (compare_bands 8444249301319680 4925812092436480
              5277655813324800 m e) as [H1 H2];
    [vm_compute; reflexivity |].
  split; [exact H1 | intros H _; exact (H2 H)].
Qed.

Lemma int_truediv_not_nan (a b : Z) (q : float) :
  int_truediv a b = inr q -> q <> S754_nan.
Proof.
  unfold int_truediv. destruct (Z.eqb_spec b 0) as [-> | Hb]; [discriminate |].
  destruct (Z.eq_dec a 0) as [-> | Ha]; [intros [= <-]; discriminate |].
  pose proof (fdiv_raw_bound a b Ha Hb) as H.
  destruct a as [| a | a]; [congruence | |];
    (destruct (fdiv _ _); [| discriminate | destruct H |]);
    intros [= <-]; discriminate.
Qed.

(** X10.  The recommendations of a summary are never empty and never
    repeat one.  They agree with the rating: with the rating "Excellent"
    or "Good" the fundamentals are not recommended, and with "Needs
    Improvement" or "Requires Remedial Training" they are the first
    recommendation. *)
Theorem recommendations_agree_with_rating
    (analysis_results : list FrameResult.t)
    (video_metadata : VideoMetadata.t) (summary : Summary.t) :
  aggregate_analysis analysis_results video_metadata = inr summary ->
  let rating := Summary.rating (Summary.overall_performance summary) in
  let recs := Summary.recommendations summary in
  recs <> [] /\ NoDup recs
  /\ (rating = "Excellent" \/ rating = "Good" -> rec_fundamentals ∉ recs)
  /\ (rating = "Needs Improvement" \/ rating = "Requires Remedial Training" ->
      head recs = Some rec_fundamentals).
Proof.
  intros H. apply aggregate_analysis_inr in H. cbn zeta in H.
  destruct H as (avg & lo & hi & _ & _ & Havg & _ & _ & Hperf & _ & _ & Hrec
                 & _).
  cbn zeta. rewrite Hperf, Hrec. cbn [Summary.rating].
  apply int_truediv_not_nan in Havg.
  destruct (generate_recommendations_shape avg
              (foldl categorize_error ∅
                 (concat (map get_errors
                            (omap FrameResult.analysis analysis_results))))
              (foldl categorize_strength ∅
                 (concat (map get_strengths
                            (omap FrameResult.analysis analysis_results)))))
    as (Hne & Hnd & Hfirst).
  split; [exact Hne |]. split; [exact Hnd |].
  destruct (rating_thresholds_70 avg) as [Hhigh Hlow].
  destruct (ge_int_thresholds avg) as (H90 & H75 & H60).
  unfold _get_performance_rating.
  destruct (ge_int avg 90) eqn:E90.
  { rewrite (Hhigh (H90 eq_refl)) in Hfirst.
    split; [intros _; exact Hfirst | intros [? | ?]; discriminate]. }
  destruct (ge_int avg 75) eqn:E75.
  { rewrite (Hhigh eq_refl) in Hfirst.
    split; [intros _; exact Hfirst | intros [? | ?]; discriminate]. }
  destruct (ge_int avg 60) eqn:E60.
  { split; intros [? | ?]; discriminate. }
  rewrite (Hlow eq_refl Havg) in Hfirst.
  destruct (ge_int avg 50);
    (split; [intros [? | ?]; discriminate | intros _; exact Hfirst]).
Qed.

Lemma recommendations_agree_witness :
  exists summary,
    aggregate_analysis three_frames no_metadata = inr summary
    /\ Summary.recommendations summary <> []
    /\ rec_fundamentals ∉ Summary.recommendations summary.
Proof.
  destruct (aggregate_analysis three_frames no_metadata)
    as [e | summary] eqn:E; [vm_compute in E; discriminate |].
  exists summary. split; [reflexivity |].
  pose proof (recommendations_agree_with_rating _ _ _ E) as H.
  cbn zeta in H. destruct H as (H1 & _ & H3 & _).
  split; [exact H1 |]. apply H3. right.
  vm_compute in E. injection E as <-. reflexivity.
Defined.

(** ** The order of the frames *)

Lemma py_sum_Permutation (l l' : list Z) : l ≡ₚ l' -> py_sum l = py_sum l'.
Proof.
  induction 1 as [| x l l' _ IH | x y l | l l' l'' _ IH1 _ IH2];
    rewrite ?py_sum_cons; lia.
Qed.

Lemma concat_Permutation_lists {A : Type} (ls ls' : list (list A)) :
  ls ≡ₚ ls' -> concat ls ≡ₚ concat ls'.
Proof.
  induction 1 as [| x l l' _ IH | x y l | l l' l'' _ IH1 _ IH2]; cbn [concat].
  - reflexivity.
  - by rewrite IH.
  - rewrite !app_assoc. f_equiv. apply Permutation_app_comm.
  - by etransitivity.
Qed.

Lemma mapM_Permutation {A B : Type} (f : A -> result B) (l l' : list A)
    (k : list B) :
  l ≡ₚ l' -> mapM f l = inr k ->
  exists k', mapM f l' = inr k' /\ k ≡ₚ k'.
Proof.
  intros Hp. revert k.
  induction Hp as [| x l l' _ IH | x y l | l l' l'' _ IH1 _ IH2]; intros k H.
  - exists k. split; [exact H | reflexivity].
  - rewrite mapM_cons in H.
    apply bind_inr in H as (y & Hy & H).
    apply bind_inr in H as (k0 & Hk & H). injection H as <-.
    destruct (IH _ Hk) as (k' & Hk' & Hperm).
    exists (y :: k'). rewrite mapM_cons, Hy, Hk'.
    split; [reflexivity | by constructor].
  - rewrite !mapM_cons in H.
    apply bind_inr in H as (y' & Hy & H).
    apply bind_inr in H as (k0 & H0 & H). injection H as <-.
    apply bind_inr in H0 as (x' & Hx & H0).
    apply bind_inr in H0 as (k1 & Hk & H0). injection H0 as <-.
    exists (x' :: y' :: k1). rewrite !mapM_cons, Hx, Hy, Hk.
    split; [reflexivity | apply perm_swap].
  - destruct (IH1 _ H) as (k' & Hk' & Hp1).
    destruct (IH2 _ Hk') as (k'' & Hk'' & Hp2).
    exists k''. split; [exact Hk'' | by etransitivity].
Qed.

Lemma py_min_Permutation (l l' : list Z) (lo : Z) :
  l ≡ₚ l' -> py_min l = inr lo -> py_min l' = inr lo.
Proof.
  intros Hp H. destruct (py_min_spec _ _ H) as [Hin Hall].
  destruct l' as [| x l'].
  { apply Permutation_nil_r in Hp. subst l. discriminate. }
  destruct (py_min_spec (x :: l') (foldl Z.min x l') eq_refl) as [Hin' Hall'].
  cbn [py_min ret]. f_equal.
  rewrite Forall_forall in Hall, Hall'.
  rewrite Hp in Hin. rewrite <- Hp in Hin'.
  specialize (Hall _ Hin'). specialize (Hall' _ Hin). lia.
Qed.

Lemma py_max_Permutation (l l' : list Z) (hi : Z) :
  l ≡ₚ l' -> py_max l = inr hi -> py_max l' = inr hi.
Proof.
  intros Hp H. destruct (py_max_spec _ _ H) as [Hin Hall].
  destruct l' as [| x l'].
  { apply Permutation_nil_r in Hp. subst l. discriminate. }
  destruct (py_max_spec (x :: l') (foldl Z.max x l') eq_refl) as [Hin' Hall'].
  cbn [py_max ret]. f_equal.
  rewrite Forall_forall in Hall, Hall'.
  rewrite Hp in Hin. rewrite <- Hp in Hin'.
  specialize (Hall _ Hin'). specialize (Hall' _ Hin). lia.
Qed.

Lemma tally_Permutation (p : string -> bool) (l l' : list string) :
  l ≡ₚ l' -> tally p l = tally p l'.
Proof.
  intros Hp. unfold tally.
  assert (H : filter (fun s => p s = true) l ≡ₚ filter (fun s => p s = true) l')
    by (by rewrite Hp).
  apply Permutation_length in H.
  destruct (filter _ l), (filter _ l'); try discriminate; [reflexivity |].
  by rewrite H.
Qed.

Section CategoryOrder.

Variable step : gmap string Z -> string -> gmap string Z.
Variable keys : list string.

Hypothesis step_other :
  forall key freq text, key ∉ keys -> step freq text !! key = freq !! key.

Hypothesis step_key :
  forall key, key ∈ keys ->
    exists p, forall freq text,
      step freq text !! key = bump (p text) (freq !! key).

(** The categories do not depend on the order of the strings. *)
Lemma foldl_category_Permutation (l l' : list string) :
  l ≡ₚ l' -> foldl step ∅ l = foldl step ∅ l'.
Proof.
  intros Hp. apply map_eq. intros key.
  destruct (decide (key ∈ keys)) as [Hk | Hk].
  - destruct (step_key key Hk) as [p Hstep].
    rewrite !(foldl_tally step key p Hstep). by apply tally_Permutation.
  - by rewrite !(foldl_other step keys step_other).
Qed.

End CategoryOrder.

Lemma add_cover_other (key : string) (stats cover_summary : gmap string Z) :
  key ∉ cover_keys -> add_cover stats cover_summary !! key = stats !! key.
Proof.
  intros Hk. unfold cover_keys in Hk.
  apply not_elem_of_cons in Hk as [H1 Hk].
  apply not_elem_of_cons in Hk as [H2 Hk].
  apply not_elem_of_cons in Hk as [H3 Hk].
  apply not_elem_of_cons in Hk as [H4 _].
  unfold add_cover, cover_keys. cbn [foldl].
  by rewrite !lookup_insert_ne.
Qed.

Lemma cover_statistics_Permutation (analyses analyses' : list Analysis.t) :
  analyses ≡ₚ analyses' ->
  let init : gmap string Z :=
    list_to_map (map (fun key => (key, 0)) cover_keys) in
  foldl (fun stats a => add_cover stats (get_cover_summary a)) init analyses
  = foldl (fun stats a => add_cover stats (get_cover_summary a)) init
      analyses'.
Proof.
  intros Hp init. apply map_eq. intros key.
  destruct (decide (key ∈ cover_keys)) as [Hk | Hk].
  - assert (Hinit : is_Some (init !! key)).
    { unfold cover_keys in Hk.
      repeat (apply elem_of_cons in Hk as [-> | Hk]);
        [| | | | by apply elem_of_nil in Hk]; by eexists. }
    rewrite !cover_totals by assumption. do 2 f_equal.
    apply py_sum_Permutation. by rewrite Hp.
  - assert (Hother : forall l stats,
               foldl (fun stats a => add_cover stats (get_cover_summary a))
                 stats l !! key = stats !! key).
    { induction l as [| a l IH]; intros stats; [reflexivity |].
      cbn [foldl]. rewrite IH. by apply add_cover_other. }
    by rewrite !Hother.
Qed.

(** X11.  The order of the records matters only for ['frames_analyzed']
    and for the examples: when [aggregate_analysis] returns a summary for
    a list, it returns one for every permutation of the list, with the
    same video fields, frame count, scores (average, minimum, maximum,
    range, rating), cover statistics, soldier total, formations, totals
    and categories of errors and strengths, and recommendations, and
    with a permutation of the per-frame entries. *)
Theorem aggregate_analysis_permutation
    (analysis_results reordered : list FrameResult.t)
    (video_metadata : VideoMetadata.t) (summary : Summary.t) :
  analysis_results ≡ₚ reordered ->
  aggregate_analysis analysis_results video_metadata = inr summary ->
  exists summary',
    aggregate_analysis reordered video_metadata = inr summary'
    /\ Summary.video_name summary' = Summary.video_name summary
    /\ Summary.duration summary' = Summary.duration summary
    /\ Summary.resolution summary' = Summary.resolution summary
    /\ Summary.frame_count summary' = Summary.frame_count summary
    /\ Summary.frames_analyzed summary ≡ₚ Summary.frames_analyzed summary'
    /\ Summary.overall_performance summary'
       = Summary.overall_performance summary
    /\ Summary.cover_statistics summary' = Summary.cover_statistics summary
    /\ Summary.total_soldiers summary' = Summary.total_soldiers summary
    /\ Summary.formations_used summary' = Summary.formations_used summary
    /\ Summary.total (Summary.tactical_errors summary')
       = Summary.total (Summary.tactical_errors summary)
    /\ Summary.by_category (Summary.tactical_errors summary')
       = Summary.by_category (Summary.tactical_errors summary)
    /\ Summary.total (Summary.tactical_strengths summary')
       = Summary.total (Summary.tactical_strengths summary)
    /\ Summary.by_category (Summary.tactical_strengths summary')
       = Summary.by_category (Summary.tactical_strengths summary)
    /\ Summary.recommendations summary' = Summary.recommendations summary.
Proof.
  intros Hp H.
  pose proof (aggregate_analysis_fields _ _ _ H) as (Hc & Hf & Hv & Hd & Hr).
  apply aggregate_analysis_inr in H. cbn zeta in H.
  destruct H as (avg & lo & hi & Hlen & Hne & Havg & Hlo & Hhi & Hperf
                 & Herr & Hstr & Hrec & Hcov & Hsol & Hfr).
  set (analyses := omap FrameResult.analysis analysis_results) in *.
  set (analyses' := omap FrameResult.analysis reordered).
  assert (Hpa : analyses ≡ₚ analyses') by (subst analyses analyses'; by rewrite Hp).
  assert (Hscores : map get_score analyses ≡ₚ map get_score analyses')
    by (by rewrite Hpa).
  assert (Herrs : concat (map get_errors analyses)
                  ≡ₚ concat (map get_errors analyses'))
    by (apply concat_Permutation_lists; by rewrite Hpa).
  assert (Hstrs : concat (map get_strengths analyses)
                  ≡ₚ concat (map get_strengths analyses'))
    by (apply concat_Permutation_lists; by rewrite Hpa).
  destruct (mapM_Permutation _ _ _ _ Hp Hfr) as (frames' & Hfr' & Hpf).
  assert (Hkeys : Forall (fun r => is_Some (FrameResult.analysis r)) reordered).
  { apply mapM_frame_entry_keys in Hfr'.
    eapply Forall_impl; [exact Hfr' |]. by intros r (Ha & _). }
  destruct (mapM_getitem_Some FrameResult.analysis "analysis" reordered Hkeys)
    as [k Han'].
  pose proof Han' as Hk. apply mapM_getitem_inr, omap_map_Some in Hk.
  fold analyses' in Hk. subst k.
  assert (Hlen' : length reordered = length analysis_results)
    by (by rewrite Hp).
  assert (Hagg : exists summary',
             aggregate_analysis reordered video_metadata = inr summary').
  { unfold aggregate_analysis.
    destruct reordered as [| r rs];
      [apply Permutation_nil_r in Hp; congruence |].
    rewrite Han'. cbn [mbind result_bind bind].
    replace (0 <? Z.of_nat (length (r :: rs))) with true
      by (symmetry; apply Z.ltb_lt; cbn [length]; lia).
    rewrite <- (py_sum_Permutation _ _ Hscores), Hlen', Havg.
    cbn [mbind result_bind bind]. rewrite Hfr'.
    cbn [mbind result_bind bind].
    rewrite (py_min_Permutation _ _ _ Hscores Hlo).
    cbn [mbind result_bind bind].
    rewrite (py_max_Permutation _ _ _ Hscores Hhi).
    cbn [mbind result_bind bind ret]. eexists. reflexivity. }
  destruct Hagg as [summary' Hagg]. exists summary'.
  split; [exact Hagg |].
  pose proof (aggregate_analysis_fields _ _ _ Hagg)
    as (Hc' & Hf' & Hv' & Hd' & Hr').
  apply aggregate_analysis_inr in Hagg. cbn zeta in Hagg.
  destruct Hagg as (avg' & lo' & hi' & _ & _ & Havg' & Hlo' & Hhi' & Hperf'
                    & Herr' & Hstr' & Hrec' & Hcov' & Hsol' & Hfr'').
  fold analyses' in Havg', Hlo', Hhi', Herr', Hstr', Hrec', Hcov', Hsol', Hf'.
  rewrite <- (py_sum_Permutation _ _ Hscores), Hlen', Havg in Havg'.
  injection Havg' as <-.
  rewrite (py_min_Permutation _ _ _ Hscores Hlo) in Hlo'. injection Hlo' as <-.
  rewrite (py_max_Permutation _ _ _ Hscores Hhi) in Hhi'. injection Hhi' as <-.
  rewrite Hfr' in Hfr''. injection Hfr'' as <-.
  assert (Hec : foldl categorize_error ∅ (concat (map get_errors analyses))
                = foldl categorize_error ∅
                    (concat (map get_errors analyses'))).
  { apply (foldl_category_Permutation categorize_error error_categories);
      [intros; by apply categorize_error_other
      | apply categorize_error_key | exact Herrs]. }
  assert (Hsc : foldl categorize_strength ∅
                  (concat (map get_strengths analyses))
                = foldl categorize_strength ∅
                    (concat (map get_strengths analyses'))).
  { apply (foldl_category_Permutation categorize_strength
             strength_categories);
      [intros; by apply categorize_strength_other
      | apply categorize_strength_key | exact Hstrs]. }
  rewrite Hv, Hv', Hd, Hd', Hr, Hr', Hc, Hc', Hperf, Hperf', Hcov, Hcov',
    Hsol, Hsol', Hf, Hf', Herr, Herr', Hstr, Hstr', Hrec, Hrec'.
  cbn [Summary.total Summary.by_category].
  rewrite <- Hec, <- Hsc, Hlen',
    (cover_statistics_Permutation _ _ Hpa),
    (Permutation_length Herrs), (Permutation_length Hstrs),
    (py_sum_Permutation (map get_soldier_count analyses)
       (map get_soldier_count analyses')) by (by rewrite Hpa).
  repeat split; try reflexivity; try assumption.
  apply list_to_set_perm_L. by rewrite Hpa.
Qed.

Lemma aggregate_analysis_permutation_witness :
  exists summary',
    aggregate_analysis three_frames_reordered no_metadata = inr summary'
    /\ Summary.average_score (Summary.overall_performance summary')
       = const 80
    /\ Summary.min_score (Summary.overall_performance summary') = 60.
Proof.
  assert (Hp : three_frames ≡ₚ three_frames_reordered).
  { unfold three_frames, three_frames_reordered.
    etransitivity; [apply perm_skip, perm_swap | apply perm_swap]. }
  destruct (aggregate_analysis three_frames no_metadata)
    as [e | summary] eqn:E; [vm_compute in E; discriminate |].
  destruct (aggregate_analysis_permutation _ _ _ _ Hp E)
    as (summary' & H & _ & _ & _ & _ & _ & Hperf & _).
  exists summary'. split; [exact H |]. rewrite Hperf.
  vm_compute in E. injection E as <-. split; vm_compute; reflexivity.
Defined.

(** * Further properties of the resize *)

Section ScaleFloor.
Local Open Scope R_scope.

(** For sides of at most [2 ^ 26] the scaled side never exceeds the exact
    quotient [other * max_dimension / larger]. *)
Lemma truncated_scale_floor (other larger max_dimension k : Z) :
  (0 <= other <= larger)%Z -> (larger <= 2 ^ 26)%Z ->
  (1 <= max_dimension < larger)%Z ->
  truncated_scale other larger max_dimension = inr k ->
  (0 <= k)%Z /\ (k * larger <= other * max_dimension)%Z.
Proof.
  intros Ho Hl Hm. unfold truncated_scale, int_mul_float.
  destruct (int_truediv max_dimension larger) as [e | ratio] eqn:Er;
    [discriminate |].
  apply int_truediv_bound in Er; [| lia | lia].
  assert (H226 : (2 ^ 26 = 67108864)%Z) by reflexivity.
  assert (H253 : (2 ^ 53 = 9007199254740992)%Z) by reflexivity.
  destruct (float_of_int_bound other) as (f & -> & Hf); [lia |].
  cbn [mbind result_bind bind mret result_ret ret].
  assert (Hprod : (other * max_dimension <= 67108864 * 67108863)%Z) by nia.
  apply IZR_le in Hprod. rewrite !mult_IZR in Hprod.
  set (m := IZR max_dimension) in *. set (l := IZR larger) in *.
  set (o := IZR other) in *.
  assert (Hm1 : 1 <= m) by (apply IZR_le; lia).
  assert (Hml : m <= l) by (apply IZR_le; lia).
  assert (Hl26 : l <= 67108864) by (apply IZR_le; lia).
  assert (Hl0 : 0 < l) by (apply IZR_lt; lia).
  assert (Hl1 : 1 <= l) by (apply IZR_le; lia).
  assert (Ho0 : 0 <= o) by (apply IZR_le; lia).
  assert (Hol : o <= l) by (apply IZR_le; lia).
  pose proof bpow_m53 as Hu. set (u := bpow (-53)) in *.
  assert (Hu0 : 0 < u) by (rewrite Hu; lra).
  assert (Heta : bpow (-1075) < u * u * u).
  { subst u. rewrite <- !bpow_add. apply bpow_lt. lia. }
  pose proof (bpow_pos (-1075)) as Heta0. set (eta := bpow (-1075)) in *.
  assert (Huu : u * u = / 9007199254740992 * / 9007199254740992)
    by (rewrite Hu; ring).
  assert (Hu3 : u * u * u = / 9007199254740992 * / 9007199254740992
                            * / 9007199254740992) by (rewrite Hu; ring).
  pose proof bpow_972 as H972. pose proof bpow_53 as H53.
  assert (Ht : m / l * l = m) by (field; lra).
  set (t := m / l) in *.
  assert (Ht0 : 0 <= t) by (subst t; apply Rle_mult_inv_pos; lra).
  assert (Ht1 : t <= 1).
  { assert (t * l <= 1 * l) by lra.
    apply Rmult_le_reg_r with (r := l); lra. }
  assert (Hq0 : 0 <= rnd_bound t).
  { unfold rnd_bound. fold u eta.
    assert (0 <= t * (1 + u)) by (apply Rmult_le_pos; lra). lra. }
  assert (Hq2 : rnd_bound t <= 2).
  { unfold rnd_bound. fold u eta.
    assert (t * (1 + u) <= 1 * (1 + u)) by (apply Rmult_le_compat_r; lra).
    rewrite Hu3, Hu in *. lra. }
  pose proof (fmul_bounded f ratio o (rnd_bound t) Hf Er ltac:(lra)
                ltac:(lra)) as Hb.
  assert (Hoq0 : 0 <= o * rnd_bound t) by (apply Rmult_le_pos; lra).
  assert (Hoq : o * rnd_bound t <= 67108864 * 2).
  { apply Rmult_le_compat; lra. }
  set (B := rnd_bound (o * rnd_bound t)) in *.
  assert (HB0 : 0 <= B).
  { subst B. unfold rnd_bound at 1. fold u eta.
    assert (0 <= o * rnd_bound t * (1 + u)) by (apply Rmult_le_pos; lra).
    lra. }
  assert (HB972 : B < bpow (emax - prec + 1)).
  { subst B. unfold rnd_bound at 1. fold u eta.
    assert (o * rnd_bound t * (1 + u) <= 67108864 * 2 * (1 + u))
      by (apply Rmult_le_compat_r; lra).
    rewrite Hu3, Hu in *. lra. }
  destruct (int_of_float_bound _ _ Hb HB0 HB972) as (k' & -> & Hk0 & Hk).
  intros [= <-]. split; [exact Hk0 |].
  (* [B * l] in terms of the exact product [o * m] *)
  assert (HBl : B * l
                = o * m + o * m * (2 * u + u * u)
                  + o * l * eta * (1 + u) + eta * l).
  { subst B. unfold rnd_bound. fold u eta.
    replace (((o * (t * (1 + u) + eta)) * (1 + u) + eta) * l)
      with (o * (t * l) * (1 + u) * (1 + u) + o * l * eta * (1 + u)
            + eta * l) by ring.
    rewrite Ht. ring. }
  assert (Hom0 : 0 <= o * m) by (apply Rmult_le_pos; lra).
  assert (H1 : o * m * (2 * u + u * u)
               <= 67108864 * 67108863 * (2 * u + u * u)).
  { apply Rmult_le_compat_r; [| exact Hprod].
    assert (0 <= u * u) by (apply Rmult_le_pos; lra). lra. }
  assert (Hol2 : o * l <= 67108864 * 67108864)
    by (apply Rmult_le_compat; lra).
  assert (Hol0 : 0 <= o * l) by (apply Rmult_le_pos; lra).
  assert (H2 : o * l * eta <= 67108864 * 67108864 * (u * u * u)).
  { apply Rmult_le_compat; lra. }
  assert (H2' : o * l * eta * (1 + u)
                <= 67108864 * 67108864 * (u * u * u) * (1 + u)).
  { apply Rmult_le_compat_r; lra. }
  assert (H3 : eta * l <= u * u * u * 67108864).
  { apply Rmult_le_compat; lra. }
  assert (Hlt : IZR k' * l < o * m + 1).
  { assert (IZR k' * l <= B * l) by (apply Rmult_le_compat_r; lra).
    rewrite HBl in *. rewrite Hu3 in *. rewrite Huu in *. rewrite Hu in *.
    lra. }
  subst o m l. rewrite <- !mult_IZR in Hlt.
  replace 1 with (IZR 1) in Hlt by reflexivity. rewrite <- plus_IZR in Hlt.
  apply lt_IZR in Hlt. lia.
Qed.

(** For such sides the scaled side is computed: no step raises. *)
Lemma truncated_scale_returns (other larger max_dimension : Z) :
  (0 <= other <= larger)%Z -> (larger <= 2 ^ 26)%Z ->
  (1 <= max_dimension < larger)%Z ->
  exists k, truncated_scale other larger max_dimension = inr k.
Proof.
  intros Ho Hl Hm. unfold truncated_scale, int_mul_float.
  assert (H226 : (2 ^ 26 = 67108864)%Z) by reflexivity.
  assert (H253 : (2 ^ 53 = 9007199254740992)%Z) by reflexivity.
  set (m := IZR max_dimension). set (l := IZR larger). set (o := IZR other).
  assert (Hm1 : 1 <= m) by (apply IZR_le; lia).
  assert (Hml : m <= l) by (apply IZR_le; lia).
  assert (Hl26 : l <= 67108864) by (apply IZR_le; lia).
  assert (Hl0 : 0 < l) by (apply IZR_lt; lia).
  assert (Ho0 : 0 <= o) by (apply IZR_le; lia).
  assert (Hol : o <= l) by (apply IZR_le; lia).
  pose proof bpow_m53 as Hu. set (u := bpow (-53)) in *.
  assert (Hu0 : 0 < u) by (rewrite Hu; lra).
  assert (Heta : bpow (-1075) < u * u * u).
  { subst u. rewrite <- !bpow_add. apply bpow_lt. lia. }
  pose proof (bpow_pos (-1075)) as Heta0. set (eta := bpow (-1075)) in *.
  assert (Hu3 : u * u * u = / 9007199254740992 * / 9007199254740992
                            * / 9007199254740992) by (rewrite Hu; ring).
  pose proof bpow_972 as H972. pose proof bpow_53 as H53.
  assert (Ht : m / l * l = m) by (field; lra).
  set (t := m / l) in *.
  assert (Ht0 : 0 <= t) by (subst t; apply Rle_mult_inv_pos; lra).
  assert (Ht1 : t <= 1).
  { assert (t * l <= 1 * l) by lra.
    apply Rmult_le_reg_r with (r := l); lra. }
  assert (Hq0 : 0 <= rnd_bound t).
  { unfold rnd_bound. fold u eta.
    assert (0 <= t * (1 + u)) by (apply Rmult_le_pos; lra). lra. }
  assert (Hq2 : rnd_bound t <= 2).
  { unfold rnd_bound. fold u eta.
    assert (t * (1 + u) <= 1 * (1 + u)) by (apply Rmult_le_compat_r; lra).
    rewrite Hu3, Hu in *. lra. }
  destruct (int_truediv_inr max_dimension larger) as [ratio Er]; [lia | |].
  { rewrite !Z.abs_eq by lia. fold m l t. lra. }
  rewrite Er. cbn [mbind result_bind bind].
  apply int_truediv_bound in Er; [| lia | lia]. fold m l t in Er.
  destruct (float_of_int_bound other) as (f & -> & Hf); [lia |]. fold o in Hf.
  cbn [mbind result_bind bind mret result_ret ret].
  pose proof (fmul_bounded f ratio o (rnd_bound t) Hf Er ltac:(lra)
                ltac:(lra)) as Hb.
  assert (Hoq0 : 0 <= o * rnd_bound t) by (apply Rmult_le_pos; lra).
  assert (Hoq : o * rnd_bound t <= 67108864 * 2).
  { apply Rmult_le_compat; lra. }
  set (B := rnd_bound (o * rnd_bound t)) in *.
  assert (HB0 : 0 <= B).
  { subst B. unfold rnd_bound at 1. fold u eta.
    assert (0 <= o * rnd_bound t * (1 + u)) by (apply Rmult_le_pos; lra).
    lra. }
  assert (HB972 : B < bpow (emax - prec + 1)).
  { subst B. unfold rnd_bound at 1. fold u eta.
    assert (o * rnd_bound t * (1 + u) <= 67108864 * 2 * (1 + u))
      by (apply Rmult_le_compat_r; lra).
    rewrite Hu3, Hu in *. lra. }
  destruct (int_of_float_bound _ _ Hb HB0 HB972) as (k & -> & _).
  by exists k.
Qed.

End ScaleFloor.

Section ResizeShrinks.

Variable Image_resize : Image.t -> Z -> Z -> result Image.t.

Hypothesis Image_resize_size :
  forall image w h resized,
    Image_resize image w h = inr resized ->
    Image.width resized = w /\ Image.height resized = h.

Hypothesis Image_resize_positive :
  forall image w h resized,
    Image_resize image w h = inr resized -> 1 <= w /\ 1 <= h.

(** Both sides of a resized image are at least 1. *)
Lemma resize_image_positive (image resized : Image.t) (max_dimension : Z) :
  (Image.width image <=? max_dimension)
  && (Image.height image <=? max_dimension) = false ->
  _resize_image Image_resize image max_dimension = inr resized ->
  1 <= Image.width resized /\ 1 <= Image.height resized.
Proof.
  intros Hbig. unfold _resize_image. rewrite Hbig. intros H.
  apply bind_inr in H as (size & _ & H).
  destruct (Image_resize_size _ _ _ _ H) as [-> ->].
  exact (Image_resize_positive _ _ _ _ H).
Qed.

(** The side that is scaled, against the exact quotient. *)
Lemma resize_image_scaled (image resized : Image.t) (max_dimension : Z) :
  modest_size image ->
  (Image.width image <=? max_dimension)
  && (Image.height image <=? max_dimension) = false ->
  _resize_image Image_resize image max_dimension = inr resized ->
  1 <= max_dimension
  /\ if Image.height image <? Image.width image
     then Image.width resized = max_dimension
          /\ max_dimension < Image.width image
          /\ 1 <= Image.height resized
          /\ Image.height resized * Image.width image
             <= Image.height image * max_dimension
     else Image.height resized = max_dimension
          /\ max_dimension < Image.height image
          /\ 1 <= Image.width resized
          /\ Image.width resized * Image.height image
             <= Image.width image * max_dimension.
Proof.
  intros [Hw Hh] Hbig H.
  destruct (resize_image_positive _ _ _ Hbig H) as [Hw1 Hh1].
  destruct (resize_image_inr Image_resize Image_resize_size
              Image_resize_positive _ _ _ Hbig H) as [Hm Hr].
  split; [exact Hm |].
  apply andb_false_iff in Hbig.
  destruct (Z.ltb_spec (Image.height image) (Image.width image))
    as [Hlt | Hge]; destruct Hr as [Hmax Hs];
    (assert (Hlarger : max_dimension < Z.max (Image.width image)
                                          (Image.height image))
       by (destruct Hbig as [Hb | Hb]; apply Z.leb_gt in Hb; lia));
    apply truncated_scale_floor in Hs; try lia.
Qed.

(** X12.  For an image with sides of at most [2 ^ 26] pixels,
    [_resize_image] never enlarges: no side of the result exceeds the
    side of the original.  When the image is resized, the side that is
    scaled never exceeds the exact quotient
    [other * max_dimension / larger], so the result is never less
    elongated than the original. *)
Theorem resize_image_never_enlarges (image resized : Image.t)
    (max_dimension : Z) :
  modest_size image ->
  _resize_image Image_resize image max_dimension = inr resized ->
  Image.width resized <= Image.width image
  /\ Image.height resized <= Image.height image
  /\ if Image.height image <? Image.width image
     then Image.height resized * Image.width image
          <= Image.height image * Image.width resized
     else Image.width resized * Image.height image
          <= Image.width image * Image.height resized.
Proof.
  intros Hsize H.
  destruct ((Image.width image <=? max_dimension)
            && (Image.height image <=? max_dimension)) eqn:Hbig.
  - unfold _resize_image in H. rewrite Hbig in H. injection H as <-.
    destruct (Image.height image <? Image.width image); lia.
  - destruct (resize_image_scaled _ _ _ Hsize Hbig H) as [Hm Hr].
    destruct Hsize as [Hw Hh].
    destruct (Z.ltb_spec (Image.height image) (Image.width image))
      as [Hlt | Hge]; destruct Hr as (-> & Hmax & H1 & Hs);
      (split; [| split]); try lia; nia.
Qed.

(** The call of PIL that [_resize_image] makes for an image that does
    not fit, once the scaled side is computed. *)
Lemma resize_image_call (image : Image.t) (max_dimension k : Z) :
  (Image.width image <=? max_dimension)
  && (Image.height image <=? max_dimension) = false ->
  (if Image.height image <? Image.width image
   then truncated_scale (Image.height image) (Image.width image)
          max_dimension
   else truncated_scale (Image.width image) (Image.height image)
          max_dimension) = inr k ->
  _resize_image Image_resize image max_dimension
  = if Image.height image <? Image.width image
    then Image_resize image max_dimension k
    else Image_resize image k max_dimension.
Proof.
  intros Hbig. unfold _resize_image, truncated_scale. rewrite Hbig.
  destruct (Image.height image <? Image.width image); intros H;
    apply bind_inr in H as (ratio & -> & H);
    cbn [mbind result_bind bind];
    apply bind_inr in H as (x & -> & H);
    cbn [mbind result_bind bind]; rewrite H; reflexivity.
Qed.

(** X13.  For an image with sides of at most [2 ^ 26] pixels that does
    not fit in a [max_dimension] of at least 1, when
    [smaller * max_dimension < larger] the scaled side
    [int(smaller * (max_dimension / larger))] is 0, the call of PIL is
    the one for a size with a zero side, and [_resize_image] raises: a
    frame of 2000 by 1 pixels cannot be resized to 720. *)
Theorem resize_image_degenerate (image : Image.t) (max_dimension : Z) :
  modest_size image ->
  1 <= max_dimension ->
  (Image.width image <=? max_dimension)
  && (Image.height image <=? max_dimension) = false ->
  Z.min (Image.width image) (Image.height image) * max_dimension
  < Z.max (Image.width image) (Image.height image) ->
  truncated_scale (Z.min (Image.width image) (Image.height image))
    (Z.max (Image.width image) (Image.height image)) max_dimension = inr 0
  /\ _resize_image Image_resize image max_dimension
     = (if Image.height image <? Image.width image
        then Image_resize image max_dimension 0
        else Image_resize image 0 max_dimension)
  /\ exists e, _resize_image Image_resize image max_dimension = inl e.
Proof.
  intros [Hw Hh] Hmax Hbig Hthin.
  set (other := Z.min (Image.width image) (Image.height image)) in *.
  set (larger := Z.max (Image.width image) (Image.height image)) in *.
  assert (Hlarger : max_dimension < larger).
  { apply andb_false_iff in Hbig.
    destruct Hbig as [Hb | Hb]; apply Z.leb_gt in Hb; subst larger; lia. }
  assert (Hscale : truncated_scale other larger max_dimension = inr 0).
  { destruct (truncated_scale_returns other larger max_dimension)
      as [k Hk]; try (subst other larger; lia).
    pose proof Hk as Hk'.
    apply truncated_scale_floor in Hk'; try (subst other larger; lia).
    rewrite Hk. f_equal. nia. }
  split; [exact Hscale |].
  assert (Hcall : _resize_image Image_resize image max_dimension
                  = if Image.height image <? Image.width image
                    then Image_resize image max_dimension 0
                    else Image_resize image 0 max_dimension).
  { apply resize_image_call; [exact Hbig |].
    subst other larger.
    destruct (Z.ltb_spec (Image.height image) (Image.width image))
      as [Hlt | Hge].
    - by rewrite Z.min_r, Z.max_l in Hscale by lia.
    - by rewrite Z.min_l, Z.max_r in Hscale by lia. }
  split; [exact Hcall |].
  rewrite Hcall.
  destruct (Image.height image <? Image.width image).
  - destruct (Image_resize image max_dimension 0) as [e | resized] eqn:E;
      [by exists e |].
    apply Image_resize_positive in E. lia.
  - destruct (Image_resize image 0 max_dimension) as [e | resized] eqn:E;
      [by exists e |].
    apply Image_resize_positive in E. lia.
Qed.

End ResizeShrinks.

Lemma modest_size_full_hd : modest_size full_hd.
Proof. split; split; try (cbn; lia); by apply Z.leb_le. Qed.

Lemma resize_image_never_enlarges_witness :
  exists resized,
    _resize_image pil_resize full_hd 720 = inr resized
    /\ Image.width resized <= 1920 /\ Image.height resized <= 1080.
Proof.
  destruct (_resize_image pil_resize full_hd 720) as [e | resized] eqn:E;
    [vm_compute in E; discriminate |].
  exists resized. split; [reflexivity |].
  destruct (resize_image_never_enlarges pil_resize pil_resize_size
              pil_resize_positive full_hd resized 720 modest_size_full_hd E)
    as (Hw & Hh & _).
  split; [exact Hw | exact Hh].
Defined.

Lemma resize_image_degenerate_witness :
  truncated_scale 1 2000 720 = inr 0
  /\ _resize_image pil_resize sliver 720 = pil_resize sliver 720 0
  /\ exists e, _resize_image pil_resize sliver 720 = inl e.
Proof.
  apply (resize_image_degenerate pil_resize pil_resize_positive sliver 720).
  - split; split; try (cbn; lia); by apply Z.leb_le.
  - lia.
  - reflexivity.
  - cbn. lia.
Defined.

(** * Configuration and video validation *)

(** ** [Config.validate] *)

(** X14.  [Config.validate] returns no error exactly when the API key
    is set and is not the placeholder, [NUM_FRAMES >= 1] and
    [FRAME_RESIZE_MAX >= 100]; it returns at most three messages, and
    the message about [NUM_FRAMES] exactly when [NUM_FRAMES < 1].  With
    a configuration that passes, a call of [extract_key_frames] without
    arguments samples the first [min(NUM_FRAMES, 3)] of the default
    positions, at least one, and resizes to [FRAME_RESIZE_MAX]. *)
Theorem validate_no_errors (GEMINI_API_KEY : string) (config : Config.t) :
  let errors := validate GEMINI_API_KEY config in
  (errors = []
   <-> GEMINI_API_KEY <> "" /\ GEMINI_API_KEY <> "your_gemini_api_key_here"
       /\ 1 <= Config.NUM_FRAMES config
       /\ 100 <= Config.FRAME_RESIZE_MAX config)
  /\ (length errors <= 3)%nat
  /\ (("NUM_FRAMES must be at least 1, got "
       +:+ pretty (Config.NUM_FRAMES config)) ∈ errors
      <-> Config.NUM_FRAMES config < 1)
  /\ (errors = [] ->
      sample_plan config None None
      = take (Z.to_nat (Config.NUM_FRAMES config))
          Config.FRAME_EXTRACTION_POSITIONS
      /\ sample_plan config None None <> []
      /\ int_or None (Config.FRAME_RESIZE_MAX config)
         = Config.FRAME_RESIZE_MAX config
      /\ int_or (Some 0) (Config.FRAME_RESIZE_MAX config)
         = Config.FRAME_RESIZE_MAX config).
Proof.
  cbn zeta. unfold validate.
  destruct (String.eqb_spec GEMINI_API_KEY "") as [Hk1 | Hk1];
    destruct (String.eqb_spec GEMINI_API_KEY "your_gemini_api_key_here")
      as [Hk2 | Hk2];
    destruct (Z.ltb_spec (Config.NUM_FRAMES config) 1) as [Hn | Hn];
    destruct (Z.ltb_spec (Config.FRAME_RESIZE_MAX config) 100) as [Hm | Hm];
    cbn [orb append_if app length];
    (split; [split; [intros H; try discriminate H; repeat split;
                     first [assumption | lia]
                    | intros (? & ? & ? & ?);
                      first [reflexivity | congruence | lia]]
            |]);
    (split; [lia |]);
    (split; [split; [intros H; first [exact Hn | exfalso];
                     repeat (apply elem_of_cons in H as [H | H];
                             [cbn in H; try discriminate H |]);
                     try (by apply elem_of_nil in H)
                    | intros H; first [lia | set_solver]]
            |]);
    try (intros H; discriminate H).
  all: intros _; unfold sample_plan; cbn [int_or list_or].
  all: rewrite slice_to_nonneg by lia.
  all: repeat split; try reflexivity.
  all: destruct (Z.to_nat (Config.NUM_FRAMES config)) eqn:E;
    [lia | discriminate].
Qed.

Lemma validate_no_errors_witness :
  validate "key" Config.default = []
  /\ sample_plan Config.default None None
     = [literal 25 2; literal 50 2; literal 75 2].
Proof.
  assert (H : validate "key" Config.default = []) by reflexivity.
  split; [exact H |].
  destruct (validate_no_errors "key" Config.default) as (_ & _ & _ & Hplan).
  destruct (Hplan H) as (-> & _). reflexivity.
Defined.

(** ** [validate_video] *)

(** What [validate_video] has checked when it reports a valid video. *)
Lemma validate_video_inr (limits : Limits.t) (video_path : VideoPath.t)
    (metadata : Metadata.t) :
  validate_video limits video_path = inr (inr metadata) ->
  exists cap width height,
    VideoPath.opens video_path = Video cap
    /\ lower (VideoPath.suffix video_path) ∈ Limits.SUPPORTED_FORMATS
    /\ int_truediv (VideoPath.st_size video_path) (1024 * 1024)
       = inr (Metadata.size_mb metadata)
    /\ float_gt_int (Metadata.size_mb metadata)
         (Limits.MAX_FILE_SIZE_MB limits) = false
    /\ int_of_float (Capture.frame_count cap)
       = inr (Metadata.frame_count metadata)
    /\ int_of_float (VideoPath.frame_width video_path) = inr width
    /\ int_of_float (VideoPath.frame_height video_path) = inr height
    /\ (if float_gt_int (Capture.fps cap) 0
        then x ← int_div_float (Metadata.frame_count metadata)
                   (Capture.fps cap);
             ret (Float x)
        else ret (Int 0)) = inr (Metadata.duration metadata)
    /\ number_gt_int (Metadata.duration metadata)
         (Limits.MAX_VIDEO_DURATION limits) = false
    /\ metadata
       = Metadata.mk (VideoPath.name video_path) (Metadata.size_mb metadata)
           (Metadata.duration metadata) (Capture.fps cap) (width, height)
           (Metadata.frame_count metadata).
Proof.
  unfold validate_video.
  destruct (VideoPath.opens video_path) as [| | cap]; [discriminate | |];
    (destruct (bool_decide _) eqn:Hs; cbn [negb]; [| discriminate]);
    apply bool_decide_eq_true in Hs; intros H;
    apply bind_inr in H as (file_size_mb & Hsize & H);
    (destruct (float_gt_int file_size_mb _) eqn:Hmb; [discriminate |]);
    [discriminate |].
  apply bind_inr in H as (total_frames & Htotal & H).
  apply bind_inr in H as (width & Hwidth & H).
  apply bind_inr in H as (height & Hheight & H).
  apply bind_inr in H as (duration & Hduration & H).
  destruct (number_gt_int duration _) eqn:Hlong; [discriminate |].
  injection H as <-. exists cap, width, height.
  cbn [Metadata.size_mb Metadata.frame_count Metadata.duration].
  repeat split; assumption.
Qed.

(** X15.  A video that [validate_video] reports as valid exists, opens
    and has a supported suffix (letter case ignored); its size in MB and
    its duration are not above the limits, the duration being
    [frame_count / fps] when [fps > 0] and the int 0 otherwise.  When
    [fps > 0], [extract_key_frames] on the same file gets past its
    checks and its metadata: it is the loop over the sampled
    positions. *)
Theorem validate_video_valid (limits : Limits.t) (video_path : VideoPath.t)
    (metadata : Metadata.t) :
  validate_video limits video_path = inr (inr metadata) ->
  exists cap,
    VideoPath.opens video_path = Video cap
    /\ lower (VideoPath.suffix video_path) ∈ Limits.SUPPORTED_FORMATS
    /\ float_gt_int (Metadata.size_mb metadata)
         (Limits.MAX_FILE_SIZE_MB limits) = false
    /\ number_gt_int (Metadata.duration metadata)
         (Limits.MAX_VIDEO_DURATION limits) = false
    /\ int_of_float (Capture.frame_count cap)
       = inr (Metadata.frame_count metadata)
    /\ if float_gt_int (Capture.fps cap) 0
       then (exists duration,
                int_div_float (Metadata.frame_count metadata)
                  (Capture.fps cap) = inr duration
                /\ Metadata.duration metadata = Float duration)
            /\ forall Image_resize config num_frames positions resize_max,
                 extract_key_frames Image_resize config
                   (VideoPath.opens video_path) num_frames positions
                   resize_max
                 = for_each
                     (extract_frame Image_resize cap
                        (Metadata.frame_count metadata)
                        (int_or resize_max (Config.FRAME_RESIZE_MAX config)))
                     [] (sample_plan config num_frames positions)
       else Metadata.duration metadata = Int 0.
Proof.
  intros H. apply validate_video_inr in H
    as (cap & width & height & Hopen & Hsuffix & _ & Hmb & Htotal & _ & _
        & Hduration & Hlong & _).
  exists cap. repeat (split; [assumption |]).
  destruct (float_gt_int (Capture.fps cap) 0).
  - apply bind_inr in Hduration as (duration & Hd & Hduration).
    injection Hduration as Hduration. split; [by exists duration |].
    intros. unfold extract_key_frames. rewrite Hopen, Htotal.
    cbn [mbind result_bind bind]. rewrite Hd. reflexivity.
  - by injection Hduration.
Qed.

Lemma validate_video_valid_witness :
  exists metadata,
    validate_video Limits.default sample_path = inr (inr metadata)
    /\ Metadata.frame_count metadata = 100
    /\ number_gt_int (Metadata.duration metadata) 120 = false.
Proof.
  destruct (validate_video Limits.default sample_path)
    as [e | [r | metadata]] eqn:E; try (vm_compute in E; discriminate).
  exists metadata. split; [reflexivity |].
  destruct (validate_video_valid _ _ _ E)
    as (cap & Hopen & _ & _ & Hlong & Htotal & _).
  split; [| exact Hlong].
  injection Hopen as <-. vm_compute in Htotal. by injection Htotal.
Defined.

(** X16.  [validate_video] accepts a video whose frame rate is 0, with
    a duration of 0, whenever it accepts it at all, although
    [extract_key_frames] raises [ZeroDivisionError] on the same file
    (for a frame count in [[0, 2 ^ 53)]). *)
Theorem validate_video_zero_fps (limits : Limits.t)
    (video_path : VideoPath.t) (metadata : Metadata.t) :
  validate_video limits video_path = inr (inr metadata) ->
  is_zero (Metadata.fps metadata) = true ->
  0 <= Metadata.frame_count metadata < 2 ^ 53 ->
  Metadata.duration metadata = Int 0
  /\ forall Image_resize config num_frames positions resize_max,
       extract_key_frames Image_resize config (VideoPath.opens video_path)
         num_frames positions resize_max = inl ZeroDivisionError.
Proof.
  intros H Hfps Hrange. apply validate_video_inr in H
    as (cap & width & height & Hopen & _ & _ & _ & Htotal & _ & _
        & Hduration & _ & Hmeta).
  rewrite Hmeta in Hfps. cbn [Metadata.fps] in Hfps.
  split.
  - destruct (Capture.fps cap); try discriminate.
    cbn in Hduration. by injection Hduration.
  - intros. rewrite Hopen. unfold extract_key_frames.
    rewrite Htotal. cbn [mbind result_bind bind]. unfold int_div_float.
    destruct (float_of_int_bound _ Hrange) as (f & -> & _).
    cbn [mbind result_bind bind]. rewrite Hfps. reflexivity.
Qed.

Lemma validate_video_zero_fps_witness :
  exists metadata,
    validate_video Limits.default stalled_path = inr (inr metadata)
    /\ Metadata.duration metadata = Int 0
    /\ extract_key_frames pil_resize Config.default
         (VideoPath.opens stalled_path) None None None
       = inl ZeroDivisionError.
Proof.
  destruct (validate_video Limits.default stalled_path)
    as [e | [r | metadata]] eqn:E; try (vm_compute in E; discriminate).
  exists metadata. split; [reflexivity |].
  assert (Hm : Metadata.fps metadata = S754_zero false
               /\ Metadata.frame_count metadata = 100).
  { vm_compute in E. injection E as <-. split; reflexivity. }
  destruct Hm as [Hfps Hcount].
  destruct (validate_video_zero_fps _ _ _ E) as [Hd Hx].
  - rewrite Hfps. reflexivity.
  - rewrite Hcount. split; [lia | reflexivity].
  - split; [exact Hd | apply Hx].
Defined.

(** * The stage 3 script *)

Lemma load_results_lookup (analysis_files : list AnalysisFile.t) (i : nat)
    (r : FrameResult.t) :
  load_results analysis_files !! i = Some r ->
  exists file,
    analysis_files !! i = Some file
    /\ r = FrameResult.mk (Some (AnalysisFile.analysis file))
             (Some (Z.of_nat i))
             (Some (default (S754_zero false) (AnalysisFile.timestamp file))).
Proof.
  unfold load_results. rewrite list_lookup_imap.
  destruct (analysis_files !! i) as [file |]; [| discriminate].
  intros [= <-]. by exists file.
Qed.

Lemma load_results_keys (analysis_files : list AnalysisFile.t) :
  Forall has_keys (load_results analysis_files).
Proof.
  apply Forall_lookup. intros i r Hr.
  apply load_results_lookup in Hr as (file & _ & ->).
  repeat split; by eexists.
Qed.

Lemma load_results_scores (analysis_files : list AnalysisFile.t) :
  Forall score_in_range (load_results analysis_files)
  <-> Forall (fun file =>
                Z.abs (get_score (AnalysisFile.analysis file)) <= 2 ^ 971)
        analysis_files.
Proof.
  rewrite !Forall_lookup. split.
  - intros H i file Hfile.
    specialize (H i (FrameResult.mk (Some (AnalysisFile.analysis file))
                       (Some (Z.of_nat i))
                       (Some (default (S754_zero false)
                                (AnalysisFile.timestamp file))))).
    apply H. unfold load_results. by rewrite list_lookup_imap, Hfile.
  - intros H i r Hr. apply load_results_lookup in Hr as (file & Hfile & ->).
    exact (H i file Hfile).
Qed.

(** X17.  The stage 3 script never meets the [KeyError] nor the
    [ValueError] of [aggregate_analysis]: the records it builds have the
    three keys, and without analysis files it is [max()] that raises,
    with a message of its own.
    With files it fails only by [OverflowError], when a score is beyond
    [2 ^ 971] in magnitude; otherwise the summary has one entry per
    file, numbered from 0 in the order of the files, and the metadata of
    the script. *)
Theorem stage3_summary_outcome (video_name : string)
    (analysis_files : list AnalysisFile.t) :
  match stage3_summary video_name analysis_files with
  | inr summary =>
      analysis_files <> []
      /\ Summary.frame_count summary = Z.of_nat (length analysis_files)
      /\ (forall i frame,
             Summary.frames_analyzed summary !! i = Some frame ->
             Summary.index frame = Z.of_nat i)
      /\ Summary.video_name summary = video_name +:+ ".mp4"
      /\ Summary.resolution summary = (1280, 720)
  | inl (ValueError msg) =>
      analysis_files = [] /\ msg <> "No analysis results to aggregate"
  | inl OverflowError =>
      ~ Forall (fun file =>
                  Z.abs (get_score (AnalysisFile.analysis file)) <= 2 ^ 971)
          analysis_files
  | inl _ => False
  end.
Proof.
  unfold stage3_summary.
  destruct analysis_files as [| file files];
    [split; [reflexivity | discriminate] |].
  set (l := file :: files).
  destruct (mapM_getitem_Some FrameResult.timestamp "timestamp"
              (load_results l)) as [timestamps Hts].
  { eapply Forall_impl; [apply load_results_keys |]. by intros r (_ & _ & Ht). }
  rewrite Hts. cbn [mbind result_bind bind].
  pose proof (mapM_inr_length _ _ _ Hts) as Hlen.
  unfold load_results in Hlen. rewrite length_imap in Hlen.
  destruct timestamps as [| t timestamps]; [discriminate |].
  cbn [max_float ret mbind result_bind bind].
  match goal with
  | |- context [aggregate_analysis ?rs ?md] =>
      destruct (aggregate_analysis rs md) as [e | summary] eqn:E
  end.
  - apply aggregate_analysis_inl in E
      as [[Hnil _] | [(key & r & -> & Hin & Hkey) | (-> & _ & Hrange)]].
    + discriminate.
    + exfalso. apply list_elem_of_lookup in Hin as [i Hr].
      apply load_results_lookup in Hr as (f & _ & ->).
      destruct Hkey as [[_ H] | [[_ H] | [_ H]]]; discriminate.
    + by rewrite load_results_scores in Hrange.
  - pose proof (aggregate_analysis_fields _ _ _ E) as (Hc & _ & Hv & _ & Hr).
    apply aggregate_analysis_inr in E. cbn zeta in E.
    destruct E as (_ & _ & _ & _ & _ & _ & _ & _ & _ & _ & _ & _ & _ & _ & Hfr).
    apply mapM_frame_entry_fields in Hfr. cbn zeta in Hfr.
    destruct Hfr as (Hidx & _).
    split; [discriminate |].
    split; [rewrite Hc; unfold load_results; by rewrite length_imap |].
    split; [| split; [exact Hv | exact Hr]].
    intros i frame Hframe.
    assert (Hi : map FrameResult.index (load_results l) !! i
                 = Some (Some (Summary.index frame)))
      by (by rewrite Hidx, list_lookup_fmap, Hframe).
    rewrite list_lookup_fmap in Hi.
    destruct (load_results l !! i) as [r |] eqn:Hr'; [| discriminate].
    apply load_results_lookup in Hr' as (f & _ & ->).
    cbn in Hi. by injection Hi.
Qed.

Lemma stage3_summary_witness :
  exists summary,
    stage3_summary "urban_warfare_training" sample_files = inr summary
    /\ Summary.frame_count summary = 2
    /\ Summary.video_name summary = "urban_warfare_training.mp4".
Proof.
  pose proof (stage3_summary_outcome "urban_warfare_training" sample_files)
    as H.
  destruct (stage3_summary "urban_warfare_training" sample_files)
    as [e | summary] eqn:E; [vm_compute in E; discriminate |].
  exists summary. split; [reflexivity |].
  destruct H as (_ & Hc & _ & Hv & _). split; [exact Hc | exact Hv].
Defined.

(** * The frame index at the ends of the range *)

(** X18.  At the ends of the range of positions no clamping takes
    place: for every video of fewer than [2 ^ 53] frames, position 0.0
    gives frame 0 and position 1.0 gives [total_frames] itself, one past
    the last frame. *)
Theorem frame_number_endpoints (total_frames : Z) :
  0 <= total_frames < 2 ^ 53 ->
  frame_number total_frames (S754_zero false) = inr 0
  /\ frame_number total_frames (const 1) = inr total_frames.
Proof.
  intros Hn. unfold frame_number, int_mul_float.
  destruct (Z.eq_dec total_frames 0) as [-> | H0];
    [split; vm_compute; reflexivity |].
  destruct (float_of_int_exact total_frames ltac:(lia))
    as (m & e & -> & Hd & He & Hm).
  cbn [mbind result_bind bind mret result_ret ret]. split.
  - reflexivity.
  - rewrite fmul_one by (assumption || lia).
    by apply int_of_float_exact.
Qed.

Lemma frame_number_endpoints_witness :
  frame_number 1800 (S754_zero false) = inr 0
  /\ frame_number 1800 (const 1) = inr 1800.
Proof.
  apply (frame_number_endpoints 1800). split; [lia | reflexivity].
Defined.

(** * The keys of the cover statistics *)

Lemma foldl_add_cover_other (key : string) (analyses : list Analysis.t)
    (stats : gmap string Z) :
  key ∉ cover_keys ->
  foldl (fun stats a => add_cover stats (get_cover_summary a)) stats analyses
    !! key = stats !! key.
Proof.
  intros Hk. revert stats.
  induction analyses as [| a analyses IH]; intros stats; [reflexivity |].
  cbn [foldl]. rewrite IH. by apply add_cover_other.
Qed.

(** X19.  The cover statistics of a summary have exactly the four keys
    'full_cover', 'partial_cover', 'no_cover' and 'exposed', whatever
    keys the cover summaries of the frames have: a key of a frame that is
    not one of the four is ignored, and each of the four is present even
    when no frame has it. *)
Theorem cover_statistics_keys (analysis_results : list FrameResult.t)
    (video_metadata : VideoMetadata.t) (summary : Summary.t) (key : string) :
  aggregate_analysis analysis_results video_metadata = inr summary ->
  is_Some (Summary.cover_statistics summary !! key) <-> key ∈ cover_keys.
Proof.
  intros H. apply aggregate_analysis_inr in H. cbn zeta in H.
  destruct H as (_ & _ & _ & _ & _ & _ & _ & _ & _ & _ & _ & _ & Hcov & _).
  rewrite Hcov. split.
  - intros Hsome. destruct (decide (key ∈ cover_keys)) as [Hk | Hk];
      [exact Hk | exfalso].
    rewrite foldl_add_cover_other in Hsome by exact Hk.
    unfold cover_keys in Hk.
    apply not_elem_of_cons in Hk as [H1 Hk].
    apply not_elem_of_cons in Hk as [H2 Hk].
    apply not_elem_of_cons in Hk as [H3 Hk].
    apply not_elem_of_cons in Hk as [H4 _].
    cbn in Hsome. rewrite !lookup_insert_ne, lookup_empty in Hsome by done.
    by destruct Hsome.
  - intros Hk. rewrite cover_totals; [by eexists | exact Hk |].
    unfold cover_keys in Hk.
    repeat (apply elem_of_cons in Hk as [-> | Hk]);
      [| | | | by apply elem_of_nil in Hk]; by eexists.
Qed.

Lemma cover_statistics_keys_witness :
  exists summary,
    aggregate_analysis [foreign_cover_result] no_metadata = inr summary
    /\ ~ is_Some (Summary.cover_statistics summary !! "behind_wall")
    /\ is_Some (Summary.cover_statistics summary !! "full_cover").
Proof.
  destruct (aggregate_analysis [foreign_cover_result] no_metadata)
    as [e | summary] eqn:E; [vm_compute in E; discriminate |].
  exists summary. split; [reflexivity |]. split.
  - intros H.
    apply (cover_statistics_keys _ _ _ "behind_wall" E) in H.
    revert H. decide_closed.
  - apply (cover_statistics_keys _ _ _ "full_cover" E). decide_closed.
Defined.
